(** * EEPROgraMmer: the host side of the serial EEPROM programmer protocol

    A shallow embedding of [eepro/eepro.py]: the escape codec, the
    acknowledged link, the write and read frames, the content sources and
    the verifier, over a scripted model of the serial transport.

    Python [bytes] are [list byte], Python [str] is [string], Python [int]
    is [Z].  A [bytes] object of length one (what [Serial.read] returns,
    what [escape_byte] takes) is a one-element list; the empty [bytes]
    object is [[]]. *)

From Stdlib Require Import ZArith Lia List Ascii String DecimalString Decimal
  DecimalZ.
From Stdlib.Strings Require Import Byte.
From stdpp Require Import gmap strings list.

Open Scope Z_scope.

(** ** Python values *)

Abbreviation bytes := (list byte).

#[global] Instance byte_eq_decision : EqDecision byte := Byte.byte_eq_dec.

(** [s.encode("ascii")] for the texts this program encodes (command tokens
    and decimal numbers, all ASCII). *)
Definition encode_ascii (s : string) : bytes := list_byte_of_string s.

(** [str(n)] and [f"{n}"] for an [int]. *)
Definition str_int (n : Z) : string := NilZero.string_of_int (Z.to_int n).

(** [len(x)] as a Python [int]. *)
Definition len {A} (l : list A) : Z := Z.of_nat (length l).

(** ** Control bytes (class attributes of [EEProgrammer]) *)

Definition esc_char : bytes := [x1b].
Definition end_char : bytes := [x04].
Definition ack_char : bytes := [x06].

(** ** Escape codec *)

(** [EEProgrammer.escape_byte]. *)
Definition escape_byte (byte : bytes) : bytes :=
  if decide (byte ∈ [end_char; esc_char]) then esc_char ++ byte else byte.

(** [EEProgrammer.escape_file_contents]: the loop appends the escaped form
    of each byte to the accumulator [escaped_bytes]. *)
Definition escape_file_contents (contents : bytes) : bytes :=
  fold_left (fun escaped_bytes byte => escaped_bytes ++ escape_byte [byte])
            contents [].

(** ** Parsing and printing of Python values *)

Definition newline : byte := x0a.

(** ASCII whitespace as [int()] skips it: space, tab, LF, VT, FF, CR. *)
Definition is_space (b : byte) : bool :=
  bool_decide (b ∈ [x20; x09; x0a; x0b; x0c; x0d]).

Definition digit_value (b : byte) : option Z :=
  let n := Z.of_N (Byte.to_N b) in
  if (48 <=? n) && (n <=? 57) then Some (n - 48) else None.

Fixpoint skip_spaces (l : bytes) : bytes :=
  match l with
  | b :: l' => if is_space b then skip_spaces l' else l
  | [] => []
  end.

(** The digits of a literal after its first digit: more digits, where a
    single underscore may stand between two digits. Returns the value and
    the unread rest. *)
Fixpoint more_digits (acc : Z) (l : bytes) : Z * bytes :=
  match l with
  | b :: l' =>
      match digit_value b with
      | Some d => more_digits (acc * 10 + d) l'
      | None =>
          if decide (b = x5f) then
            match l' with
            | c :: l'' =>
                match digit_value c with
                | Some d => more_digits (acc * 10 + d) l''
                | None => (acc, l)
                end
            | [] => (acc, l)
            end
          else (acc, l)
      end
  | [] => (acc, [])
  end.

(** [int(response)] for a [bytes] object, base 10: optional whitespace, an
    optional sign, digits, optional whitespace; [None] is [ValueError]. *)
Definition int_of_bytes (response : bytes) : option Z :=
  let l := skip_spaces response in
  let '(sign, l) :=
    match l with
    | b :: l' =>
        if decide (b = x2d) then (-1, l')
        else if decide (b = x2b) then (1, l') else (1, l)
    | [] => (1, l)
    end in
  match l with
  | b :: l' =>
      match digit_value b with
      | Some d =>
          let '(n, rest) := more_digits d l' in
          match skip_spaces rest with
          | [] => Some (sign * n)
          | _ :: _ => None
          end
      | None => None
      end
  | [] => None
  end.

(** [b.decode("ascii")]; [None] is [UnicodeDecodeError]. *)
Definition decode_ascii (b : bytes) : option string :=
  if forallb (fun c => (Byte.to_N c <? 128)%N) b
  then Some (string_of_list_byte b) else None.

(** [fill_byte * length] on a [bytes] object. *)
Definition bytes_mul (b : bytes) (n : Z) : bytes :=
  mjoin (replicate (Z.to_nat n) b).

Fixpoint hex_upper_digits (d : Hexadecimal.uint) : string :=
  match d with
  | Hexadecimal.Nil => ""
  | Hexadecimal.D0 d => String "0" (hex_upper_digits d)
  | Hexadecimal.D1 d => String "1" (hex_upper_digits d)
  | Hexadecimal.D2 d => String "2" (hex_upper_digits d)
  | Hexadecimal.D3 d => String "3" (hex_upper_digits d)
  | Hexadecimal.D4 d => String "4" (hex_upper_digits d)
  | Hexadecimal.D5 d => String "5" (hex_upper_digits d)
  | Hexadecimal.D6 d => String "6" (hex_upper_digits d)
  | Hexadecimal.D7 d => String "7" (hex_upper_digits d)
  | Hexadecimal.D8 d => String "8" (hex_upper_digits d)
  | Hexadecimal.D9 d => String "9" (hex_upper_digits d)
  | Hexadecimal.Da d => String "A" (hex_upper_digits d)
  | Hexadecimal.Db d => String "B" (hex_upper_digits d)
  | Hexadecimal.Dc d => String "C" (hex_upper_digits d)
  | Hexadecimal.Dd d => String "D" (hex_upper_digits d)
  | Hexadecimal.De d => String "E" (hex_upper_digits d)
  | Hexadecimal.Df d => String "F" (hex_upper_digits d)
  end.

Fixpoint zeros (n : nat) : string :=
  match n with O => "" | S n' => String "0" (zeros n') end.

(** [format(n, "0wX")] for a non-negative [int]: upper-case hexadecimal,
    padded with zeros on the left to at least [w] characters. *)
Definition format_X (w : nat) (n : N) : string :=
  let digits := hex_upper_digits (N.to_hex_uint n) in
  zeros (w - String.length digits) +:+ digits.

(** [format(b, spec)] for a [bytes] object: [bytes] has no [__format__]
    of its own, and [object.__format__] accepts only the empty format
    specification; [None] is [TypeError]. The text for the empty
    specification ([str(b)]) is not needed by this program. *)
Definition format_bytes (b : bytes) (spec : string) : option string :=
  if decide (spec = "") then Some (string_of_list_byte b) else None.

(** [s.split("\n")]. *)
Fixpoint split_lines (s : string) : list string :=
  match s with
  | EmptyString => [EmptyString]
  | String c s' =>
      if decide (c = "010"%char) then EmptyString :: split_lines s'
      else match split_lines s' with
           | line :: lines => String c line :: lines
           | [] => [String c EmptyString]
           end
  end.

(** ["\n".join(lines)]. *)
Fixpoint join_lines (lines : list string) : string :=
  match lines with
  | [] => ""
  | [l] => l
  | l :: ls => l +:+ String "010"%char (join_lines ls)
  end.

(** ** The serial transport

    [EEProgrammer] inherits [write], [flush], [read] and [readline] from
    [serial.Serial], opened with a read timeout. The port is modelled by
    the script of what the device delivers: [rx] lists, for each one-byte
    read still to come, the byte that arrives ([Some b]) or that nothing
    arrives within the timeout ([None]); once the script is used up the
    device is silent and every further read times out. [log] records what
    the host did on the port, oldest event first. *)

Inductive event :=
| EvWrite (data : bytes)
| EvFlush
| EvRead (result : bytes)
| EvReadline (result : bytes).

#[global] Instance event_eq_decision : EqDecision event.
Proof. solve_decision. Defined.

Record Serial := mkSerial { rx : list (option byte); log : list event }.

(** [Serial.read()]: at most one byte, [b""] on timeout. *)
Definition raw_read (rx : list (option byte)) : bytes * list (option byte) :=
  match rx with
  | Some b :: rest => ([b], rest)
  | None :: rest => ([], rest)
  | [] => ([], [])
  end.

(** [IOBase.readline()] over one-byte reads: bytes up to and including the
    first newline, cut short by a read that returns nothing. *)
Fixpoint raw_readline (rx : list (option byte)) : bytes * list (option byte) :=
  match rx with
  | Some b :: rest =>
      if decide (b = newline) then ([b], rest)
      else let '(line, rest') := raw_readline rest in (b :: line, rest')
  | None :: rest => ([], rest)
  | [] => ([], [])
  end.

Definition serial_write (data : bytes) (s : Serial) : Serial :=
  mkSerial (rx s) (log s ++ [EvWrite data]).

Definition serial_flush (s : Serial) : Serial :=
  mkSerial (rx s) (log s ++ [EvFlush]).

Definition serial_read (s : Serial) : bytes * Serial :=
  let '(char, rest) := raw_read (rx s) in
  (char, mkSerial rest (log s ++ [EvRead char])).

Definition serial_readline (s : Serial) : bytes * Serial :=
  let '(line, rest) := raw_readline (rx s) in
  (line, mkSerial rest (log s ++ [EvReadline line])).

(** ** Content sources and the program state *)

(** A [FillBytes] object: the [fill_byte] attribute and the state of the
    underlying [BytesIO] (its buffer and its stream position). *)
Record FillBytes := mkFillBytes {
  fill_byte : bytes;
  buffer : bytes;
  position : nat
}.

(** The [file] argument of [write_file] and [verify_file]: a path, or a
    reference to an opened file-like object on the heap. *)
Inductive file_arg :=
| Path (name : string)
| Obj (ref : nat).

(** The state the program runs in: the serial port, the files of the file
    system by path, and the heap of file-like objects. *)
Record world := mkWorld {
  port : Serial;
  files : gmap string bytes;
  heap : list FillBytes
}.

Definition set_port (s : Serial) (w : world) : world :=
  mkWorld s (files w) (heap w).

(** ** Exceptions and the monad of the program *)

Inductive exn :=
| ConnectionError (args : list string)
| AssertionError (args : list string)
| ValueError
| TypeError
| IndexError
| UnicodeDecodeError
| FileNotFoundError
| ReferenceError
| OSError (class_name : string).

(** The result of running a piece of the program: it returns, it raises,
    or the iteration bound of a [while True] loop was reached with the
    loop still running. Each carries the state reached. *)
Inductive outcome (A : Type) :=
| Returned (a : A) (w : world)
| Raised (e : exn) (w : world)
| OutOfFuel (w : world).
Arguments Returned {A} a w.
Arguments Raised {A} e w.
Arguments OutOfFuel {A} w.

Definition final_world {A} (r : outcome A) : world :=
  match r with
  | Returned _ w | Raised _ w | OutOfFuel w => w
  end.

Definition M (A : Type) : Type := world → outcome A.

#[global] Instance M_ret : MRet M := λ A a w, Returned a w.
#[global] Instance M_bind : MBind M := λ A B k c w,
  match c w with
  | Returned a w' => k a w'
  | Raised e w' => Raised e w'
  | OutOfFuel w' => OutOfFuel w'
  end.

Definition raise {A} (e : exn) : M A := λ w, Raised e w.

(** [try: c except AssertionError as err: handler(err.args)]. *)
Definition try_except_AssertionError {A}
    (c : M A) (handler : list string → M A) : M A := λ w,
  match c w with
  | Raised (AssertionError args) w' => handler args w'
  | r => r
  end.

Definition from_option {A} (e : exn) (o : option A) : M A :=
  match o with Some a => mret a | None => raise e end.

Fixpoint for_each {A} (l : list A) (body : A → M unit) : M unit :=
  match l with
  | [] => mret tt
  | x :: l' => body x ;; for_each l' body
  end.

Definition port_write (data : bytes) : M unit := λ w,
  Returned tt (set_port (serial_write data (port w)) w).

Definition port_flush : M unit := λ w,
  Returned tt (set_port (serial_flush (port w)) w).

Definition port_read : M bytes := λ w,
  let '(char, s) := serial_read (port w) in Returned char (set_port s w).

Definition port_readline : M bytes := λ w,
  let '(line, s) := serial_readline (port w) in Returned line (set_port s w).

(** [FillBytes(fill_byte, length)]: a new object on the heap. *)
Definition new_FillBytes (fill_byte : bytes) (length : Z) : M nat := λ w,
  let obj := mkFillBytes fill_byte (bytes_mul fill_byte length) 0 in
  Returned (List.length (heap w))
           (mkWorld (port w) (files w) (heap w ++ [obj])).

(** [BytesIO.read()]: the bytes from the stream position to the end; the
    position moves to the end. *)
Definition BytesIO_read (o : FillBytes) : bytes * FillBytes :=
  (drop (position o) (buffer o),
   mkFillBytes (fill_byte o) (buffer o)
               (Nat.max (position o) (List.length (buffer o)))).

(** [FillBytes.__repr__]. *)
Definition FillBytes_repr (o : FillBytes) : M string :=
  match fill_byte o with
  | b :: _ => mret ("fill bytes (0x" +:+ format_X 2 (Byte.to_N b) +:+ ")")
  | [] => raise IndexError
  end.

(** The first statement of [write_file] and of [verify_file]: all bytes of
    the file named by a path, or what [file.read()] gives on a file-like
    object. A reference that names no object of the heap denotes nothing
    in a Python state; it is answered by [ReferenceError]. *)
Definition read_source (file : file_arg) : M bytes := λ w,
  match file with
  | Path name =>
      match files w !! name with
      | Some content => Returned content w
      | None => Raised FileNotFoundError w
      end
  | Obj ref =>
      match heap w !! ref with
      | Some o =>
          let '(content, o') := BytesIO_read o in
          Returned content (mkWorld (port w) (files w) (<[ref := o']> (heap w)))
      | None => Raised ReferenceError w
      end
  end.

(** [f"{file}"]: a path formats as itself, a [FillBytes] through its
    [__repr__]. *)
Definition format_file (file : file_arg) : M string := λ w,
  match file with
  | Path name => Returned name w
  | Obj ref =>
      match heap w !! ref with
      | Some o => FillBytes_repr o w
      | None => Raised ReferenceError w
      end
  end.

(** ** [format_hex] *)

Definition format_address (i : Z) : string :=
  "0x" +:+ format_X 4 (Z.to_N i) +:+ ":    ".

Definition format_byte (in_byte : byte) : string :=
  format_X 2 (Byte.to_N in_byte) +:+ " ".

(** The loop of [format_hex] over [enumerate(in_bytes)], from index [i]
    on, appending to [formatted_str]. *)
Fixpoint format_hex_loop (i : Z) (in_bytes : bytes) (formatted_str : string)
  : string :=
  match in_bytes with
  | [] => formatted_str
  | in_byte :: rest =>
      let chunk_size := 8 in
      let formatted_str :=
        if decide (i `mod` chunk_size = 0)
        then formatted_str +:+ String "010"%char (format_address i)
        else if decide (i `mod` (chunk_size `div` 2) = 0)
             then formatted_str +:+ " "
             else formatted_str in
      format_hex_loop (i + 1) rest (formatted_str +:+ format_byte in_byte)
  end.

Definition format_hex (in_bytes : bytes) : list string :=
  split_lines (format_hex_loop 0 in_bytes "").

(** ** The acknowledged link *)

(** The loop of [flush_read_buffer], bounded by [fuel] iterations; [None]
    when the bound is reached. *)
Fixpoint flush_read_buffer_loop (fuel : nat) (content : bytes) (s : Serial)
  : option (bytes * Serial) :=
  match fuel with
  | O => None
  | S fuel' =>
      let '(line, s') := serial_readline s in
      if decide (line = []) then Some (content, s')
      else flush_read_buffer_loop fuel' (content ++ line) s'
  end.

(** [EEProgrammer.flush_read_buffer]. Every iteration but the last takes
    at least one entry of the script, so one more iteration than the
    script has entries is enough (lemma [flush_read_buffer_loop_total]). *)
Definition flush_read_buffer : M bytes := λ w,
  match flush_read_buffer_loop (S (List.length (rx (port w)))) [] (port w) with
  | Some (content, s) => Returned content (set_port s w)
  | None => OutOfFuel w
  end.

(** [EEProgrammer.acknowledged_write]. *)
Definition acknowledged_write (byte : bytes) : M unit :=
  port_write byte ;;
  port_flush ;;
  response ← port_read ;
  if decide (response ≠ ack_char) then
    residual ← flush_read_buffer ;
    text ← from_option UnicodeDecodeError (decode_ascii residual) ;
    raise (ConnectionError ["Programmer did not acknowledge write"; text])
  else mret tt.

(** ** The command framer *)

(** [EEProgrammer.write_file]. *)
Definition write_file (file : file_arg) (start_address : Z) : M unit :=
  acknowledged_write (encode_ascii "w ") ;;
  acknowledged_write (encode_ascii (str_int start_address)) ;;
  raw_content ← read_source file ;
  let escaped_content := escape_file_contents raw_content in
  _ ← format_file file ;
  for_each escaped_content (λ byte, acknowledged_write [byte]) ;;
  acknowledged_write end_char ;;
  response ← port_readline ;
  bytes_written ← from_option ValueError (int_of_bytes response) ;
  if decide (bytes_written ≠ len raw_content) then
    raise (AssertionError
             ["written " +:+ str_int bytes_written +:+ " bytes, expected "
              +:+ str_int (len raw_content)])
  else mret tt.

(** One iteration of the [while True] loop of [read_contents] with the
    bytes accumulated so far: [inl content'] goes round again, [inr
    result] is the [return] statement. *)
Definition read_contents_body (content : bytes) : M (bytes + bytes) :=
  char ← port_read ;
  if decide (char = end_char) then
    response ← port_readline ;
    bytes_read ← from_option ValueError (int_of_bytes response) ;
    let escaped_content := escape_file_contents content in
    if decide (bytes_read ≠ len escaped_content) then
      raise (AssertionError
               ["read " +:+ str_int (len escaped_content)
                +:+ " bytes, expected " +:+ str_int bytes_read])
    else mret (inr content)
  else
    char ← (if decide (char = esc_char) then
              char ← port_read ;
              if decide (char ∉ [end_char; esc_char]) then
                raise (AssertionError ["Invalid escape sequence received"])
              else mret char
            else mret char) ;
    mret (inl (content ++ char)).

Fixpoint read_contents_loop (fuel : nat) (content : bytes) : M bytes :=
  match fuel with
  | O => λ w, OutOfFuel w
  | S fuel' =>
      step ← read_contents_body content ;
      match step with
      | inl content' => read_contents_loop fuel' content'
      | inr result => mret result
      end
  end.

(** [EEProgrammer.read_contents]; [fuel] bounds the iterations of its
    loop. *)
Definition read_contents (fuel : nat) (start_address length : Z) : M bytes :=
  acknowledged_write (encode_ascii "r ") ;;
  acknowledged_write (encode_ascii (str_int start_address)) ;;
  acknowledged_write (encode_ascii (str_int length)) ;;
  read_contents_loop fuel [].

Section ReadFile.

(** What [open(file, "wb")] raises for a path, if anything: the answer of
    the operating system, which refuses the empty name, a directory, a
    path in a missing directory or a file it may not write
    ([FileNotFoundError], or another exception of the [OSError] family by
    its class name). *)
Variable open_wb_error : string → option exn.

(** [with open(file, "wb") as outfile: outfile.write(contents)]: when the
    file can be opened it holds [contents] afterwards; writing to the
    opened file is taken to succeed. *)
Definition store_file (file : string) (contents : bytes) : M unit := λ w,
  match open_wb_error file with
  | Some e => Raised e w
  | None =>
      Returned tt
        (mkWorld (port w) (<[file := contents]> (files w)) (heap w))
  end.

(** [EEProgrammer.read_file]. *)
Definition read_file (fuel : nat) (file : string) (length start_address : Z)
  : M unit :=
  contents ← read_contents fuel start_address length ;
  store_file file contents.

End ReadFile.

(** [EEProgrammer.fill]. *)
Definition fill (fill_byte : bytes) (length start_address : Z) : M unit :=
  dummy_file ← new_FillBytes fill_byte length ;
  write_file (Obj dummy_file) start_address.

(** ** The verifier *)

Section Verifier.

(** [difflib.context_diff(a, b, fromfile, tofile)] and [repr] of a
    [str], from the Python library. *)
Variable context_diff :
  list string → list string → string → string → list string.
Variable repr_str : string → string.

(** [repr(file)]. *)
Definition repr_file (file : file_arg) : M string := λ w,
  match file with
  | Path name => Returned (repr_str name) w
  | Obj ref =>
      match heap w !! ref with
      | Some o => FillBytes_repr o w
      | None => Raised ReferenceError w
      end
  end.

(** [EEProgrammer.verify_file]. *)
Definition verify_file (fuel : nat) (file : file_arg) (start_address : Z)
  : M unit :=
  raw_content ← read_source file ;
  eeprom_content ← read_contents fuel start_address (len raw_content) ;
  if decide (raw_content ≠ eeprom_content) then
    fromfile ← repr_file file ;
    let diff := context_diff (format_hex raw_content)
                             (format_hex eeprom_content)
                             fromfile "EEPROM Contents" in
    raise (AssertionError ["Contents do not match input file";
                           join_lines diff])
  else mret tt.

(** [EEProgrammer.check_filled]. The handler first formats the message
    [f"EEPROM is not filled with 0x{fill_byte:02X}"], where [fill_byte]
    is a [bytes] object, then takes [err.args[1]]. *)
Definition check_filled (fuel : nat) (fill_byte : bytes)
    (length start_address : Z) : M unit :=
  dummy_file ← new_FillBytes fill_byte length ;
  try_except_AssertionError
    (verify_file fuel (Obj dummy_file) start_address)
    (λ err_args,
       hex ← from_option TypeError (format_bytes fill_byte "02X") ;
       detail ← from_option IndexError (err_args !! 1%nat) ;
       raise (AssertionError ["EEPROM is not filled with 0x" +:+ hex;
                              detail])).

End Verifier.

(** ** Observations on the log of the port *)

(** The chunks handed to [Serial.write], in order. *)
Definition writes (evs : list event) : list bytes :=
  omap (λ e, match e with EvWrite data => Some data | _ => None end) evs.

(** The three events of one [acknowledged_write] whose read gave [r]. *)
Definition link_events (data response : bytes) : list event :=
  [EvWrite data; EvFlush; EvRead response].

(** Never more than one unit in flight: a write adds the size of its
    chunk to what is pending, a read that returns ACK clears it. With
    [size := length] the unit is the byte, with [size := λ _, 1] it is
    the chunk of one [Serial.write] call. *)
Fixpoint in_flight_bounded (size : bytes → nat) (pending : nat)
    (evs : list event) : bool :=
  match evs with
  | [] => true
  | EvWrite data :: evs' =>
      bool_decide (pending + size data ≤ 1)%nat
      && in_flight_bounded size (pending + size data) evs'
  | EvRead r :: evs' =>
      in_flight_bounded size (if decide (r = ack_char) then 0 else pending)%nat
                        evs'
  | _ :: evs' => in_flight_bounded size pending evs'
  end.

(** What is pending after the events. *)
Fixpoint pending_after (size : bytes → nat) (pending : nat)
    (evs : list event) : nat :=
  match evs with
  | [] => pending
  | EvWrite data :: evs' => pending_after size (pending + size data) evs'
  | EvRead r :: evs' =>
      pending_after size (if decide (r = ack_char) then 0 else pending)%nat evs'
  | _ :: evs' => pending_after size pending evs'
  end.

Definition one_byte_in_flight (evs : list event) : bool :=
  in_flight_bounded (λ data, List.length data) 0 evs.

Definition one_chunk_in_flight (evs : list event) : bool :=
  in_flight_bounded (λ _, 1%nat) 0 evs.

(** The chunks of a complete write frame and of the header of a read
    frame. *)
Definition write_frame_chunks (start_address : Z) (raw_content : bytes)
  : list bytes :=
  [encode_ascii "w "; encode_ascii (str_int start_address)]
  ++ map (λ byte, [byte]) (escape_file_contents raw_content)
  ++ [end_char].

Definition read_frame_chunks (start_address length : Z) : list bytes :=
  [encode_ascii "r "; encode_ascii (str_int start_address);
   encode_ascii (str_int length)].

(** What [read_source] yields in a state ([b""] where it raises). *)
Definition source_content (file : file_arg) (w : world) : bytes :=
  match read_source file w with
  | Returned raw_content _ => raw_content
  | _ => []
  end.

(** The faults of the protocol as the exceptions the program raises. *)
Definition LinkFault (residual : string) : exn :=
  ConnectionError ["Programmer did not acknowledge write"; residual].

Definition WriteCountMismatch (bytes_written expected : Z) : exn :=
  AssertionError ["written " +:+ str_int bytes_written
                  +:+ " bytes, expected " +:+ str_int expected].

Definition ReadCountMismatch (received bytes_read : Z) : exn :=
  AssertionError ["read " +:+ str_int received
                  +:+ " bytes, expected " +:+ str_int bytes_read].

Definition InvalidEscape : exn :=
  AssertionError ["Invalid escape sequence received"].

(** The state [w] after the port has moved on: [rest] is left of the
    script and [evs] was logged. *)
Definition with_port (w : world) (rest : list (option byte))
    (evs : list event) : world :=
  mkWorld (mkSerial rest (log (port w) ++ evs)) (files w) (heap w).


(** The events of an acknowledged read header, and of a whole read frame
    in which the device sent the wire image of [raw], END and the count
    line [line]. *)
Definition read_header_events (start_address length : Z) : list event :=
  link_events (encode_ascii "r ") ack_char
  ++ link_events (encode_ascii (str_int start_address)) ack_char
  ++ link_events (encode_ascii (str_int length)) ack_char.

Definition read_frame_events (start_address length : Z) (raw line : bytes)
  : list event :=
  read_header_events start_address length
  ++ map (λ b, EvRead [b]) (escape_file_contents raw)
  ++ [EvRead end_char; EvReadline line].

(** What the loop does when the byte read is END, with [content]
    accumulated: the count line decides. *)
Definition end_of_frame (content : bytes) (w : world)
    (rest : list (option byte)) : outcome (bytes + bytes) :=
  let line := (raw_readline rest).1 in
  let w' := with_port w (raw_readline rest).2 [EvRead end_char; EvReadline line] in
  match int_of_bytes line with
  | None => Raised ValueError w'
  | Some bytes_read =>
      if decide (bytes_read = len (escape_file_contents content))
      then Returned (inr content) w'
      else Raised (ReadCountMismatch (len (escape_file_contents content))
                                     bytes_read) w'
  end.

(** The events of a write frame in which every chunk was acknowledged
    and the device then sent the count line [line]. *)
Definition payload_events (escaped_content : bytes) : list event :=
  escaped_content ≫= (λ byte, link_events [byte] ack_char).

Definition write_frame_events (start_address : Z) (raw line : bytes)
  : list event :=
  link_events (encode_ascii "w ") ack_char
  ++ link_events (encode_ascii (str_int start_address)) ack_char
  ++ payload_events (escape_file_contents raw)
  ++ link_events end_char ack_char
  ++ [EvReadline line].

(** Two reads of the same content source, one after the other. *)
Definition read_twice (file : file_arg) : M (bytes * bytes) :=
  first ← read_source file ;
  second ← read_source file ;
  mret (first, second).

(** The rows of a hexadecimal listing: the bytes of a block one after the
    other, each as two upper-case hexadecimal digits and a space; a row is
    the address, the first block of up to four bytes and, when the row has
    more than four bytes, a space and the second block. The rows of a byte
    sequence are those of its consecutive chunks of eight bytes, the last
    chunk possibly shorter, each at the address of its first byte. *)
Definition hex_group (block : bytes) : string :=
  foldr (λ b s, format_byte b +:+ s) "" block.

Definition hex_row (address : Z) (chunk : bytes) : string :=
  format_address address +:+ hex_group (take 4 chunk)
  +:+ (if decide (drop 4 chunk = []) then ""
       else " " +:+ hex_group (drop 4 chunk)).

Definition hex_rows_from (k : nat) (in_bytes : bytes) : list string :=
  map (λ m, hex_row (8 * Z.of_nat (k + m))
                    (take 8 (drop (8 * m) in_bytes)))
      (seq 0 ((List.length in_bytes + 7) / 8)).

Definition hex_rows (in_bytes : bytes) : list string :=
  hex_rows_from 0 in_bytes.

(** A piece of the program that, run in [w], keeps the link discipline
    while sending [chunks]: it extends the log by events in which a chunk
    is written only when none is pending, the chunks written are the first
    of [chunks] in order, and if it returns they are all of [chunks] and
    none is pending. *)
Definition link_ok {A} (c : M A) (w : world) (chunks : list bytes) : Prop :=
  ∃ evs,
    log (port (final_world (c w))) = log (port w) ++ evs
    ∧ one_chunk_in_flight evs = true
    ∧ writes evs `prefix_of` chunks
    ∧ (∀ a w', c w = Returned a w' →
         pending_after (λ _, 1%nat) 0 evs = 0%nat ∧ writes evs = chunks).

(** A piece of the program that writes nothing to the port. *)
Definition quiet {A} (c : M A) : Prop :=
  ∀ w, ∃ evs,
    log (port (final_world (c w))) = log (port w) ++ evs ∧ writes evs = [].

(** What the loop of [format_hex] puts in front of the byte at index [i]. *)
Definition separator (i : Z) : string :=
  if decide (i `mod` 8 = 0) then String "010"%char (format_address i)
  else if decide (i `mod` 4 = 0) then " " else "".

(** The bytes of a row after its first byte, [j] being the place in the
    row of the first of them. *)
Fixpoint row_tail (j : nat) (c : bytes) : string :=
  match c with
  | [] => ""
  | b :: c' =>
      (if decide (j = 4%nat) then " " else "") +:+ format_byte b
      +:+ row_tail (S j) c'
  end.

(** No character of the string is a newline. *)
Fixpoint no_newline (s : string) : bool :=
  match s with
  | EmptyString => true
  | String c s' => negb (bool_decide (c = "010"%char)) && no_newline s'
  end.

(** The text whose lines are an empty line and then [rows]. *)
Definition rows_text (rows : list string) : string :=
  foldr (λ row text, String "010"%char (row +:+ text)) "" rows.

(** A state with nothing logged, no files and no objects, in front of a
    device that will deliver [script]. *)
Definition idle_world (script : list (option byte)) : world :=
  mkWorld (mkSerial script []) ∅ [].

(** The number of bytes of [contents] that the codec escapes. *)
Definition control_bytes (contents : bytes) : nat :=
  List.length (filter (λ b, b = x04 ∨ b = x1b) contents).

(** A device that is slow: before the wire image of each raw byte [b] of
    [items] it lets [k] reads time out. *)
Definition wire_with_timeouts (items : list (nat * byte))
  : list (option byte) :=
  items ≫= (λ item, replicate item.1 None ++ map Some (escape_byte [item.2])).

(** The iterations the read loop needs for such data: one per timeout and
    one per raw byte. *)
Definition iterations (items : list (nat * byte)) : nat :=
  sum_list (map (λ item, S item.1) items).

(** A piece of the program that leaves the file system as it is. *)
Definition keeps_files {A} (c : M A) : Prop :=
  ∀ w, files (final_world (c w)) = files w.

(** The exception is an [AssertionError]. *)
Definition is_AssertionError (e : exn) : Prop :=
  ∃ args, e = AssertionError args.

(** The number a string of decimal digits stands for, continuing from the
    value [acc] of the digits in front of it. *)
Fixpoint uint_value (acc : Z) (d : uint) : Z :=
  match d with
  | Nil => acc
  | D0 d' => uint_value (acc * 10 + 0) d'
  | D1 d' => uint_value (acc * 10 + 1) d'
  | D2 d' => uint_value (acc * 10 + 2) d'
  | D3 d' => uint_value (acc * 10 + 3) d'
  | D4 d' => uint_value (acc * 10 + 4) d'
  | D5 d' => uint_value (acc * 10 + 5) d'
  | D6 d' => uint_value (acc * 10 + 6) d'
  | D7 d' => uint_value (acc * 10 + 7) d'
  | D8 d' => uint_value (acc * 10 + 8) d'
  | D9 d' => uint_value (acc * 10 + 9) d'
  end.

(** * Properties *)

(** ** Sanity checks of the Python value model *)

Example int_of_bytes_ex1 : int_of_bytes (encode_ascii "42" ++ [x0d; x0a]) = Some 42.
Proof. reflexivity. Qed.
Example int_of_bytes_ex2 : int_of_bytes (encode_ascii " -1_0 ") = Some (-10).
Proof. reflexivity. Qed.
Example int_of_bytes_ex3 : int_of_bytes (encode_ascii "1__0") = None.
Proof. reflexivity. Qed.
Example int_of_bytes_ex4 : int_of_bytes [] = None.
Proof. reflexivity. Qed.
Example format_X_ex1 : format_X 4 8 = "0008"%string.
Proof. reflexivity. Qed.
Example format_X_ex2 : format_X 2 255 = "FF"%string.
Proof. reflexivity. Qed.
Example format_X_ex3 : format_X 4 65536 = "10000"%string.
Proof. reflexivity. Qed.
Example str_int_ex : str_int 120 = "120"%string ∧ str_int 0 = "0"%string.
Proof. split; reflexivity. Qed.
Example format_hex_doc :
  format_hex (encode_ascii "0123456789ABCDEF")
  = [""; "0x0000:    30 31 32 33  34 35 36 37 ";
     "0x0008:    38 39 41 42  43 44 45 46 "]%string.
Proof. vm_compute. reflexivity. Qed.

(** ** Facts about the codec *)

Lemma escape_byte_control (b : byte) :
  b = x1b ∨ b = x04 → escape_byte [b] = [x1b; b].
Proof.
  intros [-> | ->]; reflexivity.
Qed.

Lemma escape_byte_plain (b : byte) :
  b ≠ x1b → b ≠ x04 → escape_byte [b] = [b].
Proof.
  intros Hesc Hend. unfold escape_byte.
  destruct (decide ([b] ∈ [end_char; esc_char])) as [Hin | Hnin]; [|done].
  exfalso. unfold end_char, esc_char in Hin.
  apply list_elem_of_In in Hin. simpl in Hin.
  destruct Hin as [H | [H | []]]; inversion H; congruence.
Qed.

Lemma escape_fold_acc (contents acc : bytes) :
  fold_left (fun escaped_bytes byte => escaped_bytes ++ escape_byte [byte])
            contents acc
  = acc ++ concat (map (fun b => escape_byte [b]) contents).
Proof.
  revert acc. induction contents as [|b contents IH]; intros acc; simpl.
  - by rewrite app_nil_r.
  - rewrite IH. by rewrite <- app_assoc.
Qed.

Lemma escape_file_contents_concat (contents : bytes) :
  escape_file_contents contents
  = concat (map (fun b => escape_byte [b]) contents).
Proof. unfold escape_file_contents. by rewrite escape_fold_acc. Qed.

Lemma escape_file_contents_nil : escape_file_contents [] = [].
Proof. reflexivity. Qed.

Lemma escape_file_contents_cons (b : byte) (contents : bytes) :
  escape_file_contents (b :: contents)
  = escape_byte [b] ++ escape_file_contents contents.
Proof. by rewrite !escape_file_contents_concat. Qed.

Lemma escape_file_contents_app (xs ys : bytes) :
  escape_file_contents (xs ++ ys)
  = escape_file_contents xs ++ escape_file_contents ys.
Proof.
  rewrite !escape_file_contents_concat. by rewrite map_app, concat_app.
Qed.

(** C3: a byte other than ESCAPE (0x1B) and END (0x04) is escaped to
    itself, ESCAPE and END are escaped to the two bytes ESCAPE, b, and
    [escape_file_contents] is the concatenation, in input order, of the
    escaped forms of the input bytes. *)
Theorem escape_codec_spec :
  (∀ b : byte, b ≠ x1b → b ≠ x04 → escape_byte [b] = [b]) ∧
  (∀ b : byte, b = x1b ∨ b = x04 → escape_byte [b] = [x1b; b]) ∧
  (∀ contents : bytes,
      escape_file_contents contents
      = concat (map (fun b => escape_byte [b]) contents)).
Proof.
  split; [|split].
  - exact escape_byte_plain.
  - exact escape_byte_control.
  - exact escape_file_contents_concat.
Qed.

Lemma escape_codec_spec_witness :
  escape_byte ["A"%byte] = ["A"%byte] ∧
  escape_byte [x04] = [x1b; x04] ∧
  escape_file_contents ["A"%byte; x04; x1b]
  = ["A"%byte; x1b; x04; x1b; x1b].
Proof.
  destruct escape_codec_spec as (Hplain & Hctl & Hseq).
  split; [|split].
  - apply Hplain; discriminate.
  - apply Hctl. by right.
  - rewrite Hseq. reflexivity.
Defined.

(** ** The transport primitives *)

Ltac unfold_monad :=
  unfold from_option, mbind, M_bind, mret, M_ret, raise,
    port_write, port_flush, port_read, port_readline,
    serial_write, serial_flush, serial_read, serial_readline, set_port in *.

Lemma raw_readline_length (rx0 : list (option byte)) :
  (List.length (raw_readline rx0).2 ≤ List.length rx0)%nat.
Proof.
  induction rx0 as [|[b|] rest IH]; simpl; [lia| |lia].
  destruct (decide (b = newline)); simpl; [lia|].
  destruct (raw_readline rest) as [line rest']; simpl in *. lia.
Qed.

Lemma raw_readline_progress (rx0 : list (option byte)) :
  (raw_readline rx0).1 ≠ [] →
  (List.length (raw_readline rx0).2 < List.length rx0)%nat.
Proof.
  destruct rx0 as [|[b|] rest]; simpl; [done| |done].
  intros _. destruct (decide (b = newline)); simpl; [lia|].
  pose proof (raw_readline_length rest) as Hle.
  destruct (raw_readline rest) as [line rest']; simpl in *. lia.
Qed.

(** The drain loop ends within one more iteration than the script has
    entries, leaves the rest of the state alone, and only logs
    [readline] calls. *)
Lemma flush_read_buffer_loop_total (fuel : nat) (content : bytes) (s : Serial) :
  (List.length (rx s) < fuel)%nat →
  ∃ residual rest lines,
    flush_read_buffer_loop fuel content s
    = Some (residual, mkSerial rest (log s ++ map EvReadline lines)).
Proof.
  revert content s. induction fuel as [|fuel IH]; intros content s Hlt; [lia|].
  simpl. unfold serial_readline.
  pose proof (raw_readline_progress (rx s)) as Hprog.
  destruct (raw_readline (rx s)) as [line rest] eqn:Hline. simpl in Hprog.
  destruct (decide (line = [])) as [-> | Hne].
  - exists content, rest, [[]]. reflexivity.
  - destruct (IH (content ++ line)
                 (mkSerial rest (log s ++ [EvReadline line]))) as
      (residual & rest' & lines & Heq).
    { simpl. specialize (Hprog Hne). lia. }
    exists residual, rest', (line :: lines).
    rewrite Heq. simpl. by rewrite <- app_assoc.
Qed.

Lemma flush_read_buffer_returns (w : world) :
  ∃ residual rest lines,
    flush_read_buffer w
    = Returned residual
        (mkWorld (mkSerial rest (log (port w) ++ map EvReadline lines))
                 (files w) (heap w)).
Proof.
  unfold flush_read_buffer.
  destruct (flush_read_buffer_loop_total (S (List.length (rx (port w)))) []
              (port w)) as (residual & rest & lines & ->); [lia|].
  by exists residual, rest, lines.
Qed.

(** An acknowledged chunk: the three events of the round, nothing else. *)
Lemma acknowledged_write_acked (data : bytes) (w : world)
    (rest : list (option byte)) :
  rx (port w) = Some x06 :: rest →
  acknowledged_write data w
  = Returned tt
      (mkWorld (mkSerial rest (log (port w) ++ link_events data ack_char))
               (files w) (heap w)).
Proof.
  intros Hrx. unfold acknowledged_write. unfold_monad. simpl.
  rewrite Hrx. simpl.
  destruct (decide (ack_char ≠ ack_char)) as [Hne|_]; [done|].
  unfold link_events, ack_char. by rewrite <- !app_assoc.
Qed.

(** A chunk that is not acknowledged: the round, then the drain, then an
    exception that is not an [AssertionError]. *)
Lemma acknowledged_write_failed (data : bytes) (w : world) :
  (raw_read (rx (port w))).1 ≠ ack_char →
  ∃ e rest lines,
    acknowledged_write data w
    = Raised e
        (mkWorld (mkSerial rest
                    (log (port w)
                     ++ link_events data (raw_read (rx (port w))).1
                     ++ map EvReadline lines))
                 (files w) (heap w))
    ∧ (e = UnicodeDecodeError
       ∨ ∃ text, e = ConnectionError
                       ["Programmer did not acknowledge write"; text]).
Proof.
  intros Hne. unfold acknowledged_write. unfold_monad. simpl.
  destruct (raw_read (rx (port w))) as [r rest0] eqn:Hread. simpl in *.
  destruct (decide (r ≠ ack_char)) as [_|Heq]; [|done].
  match goal with |- context [flush_read_buffer ?w1] =>
    destruct (flush_read_buffer_returns w1) as (residual & rest & lines & ->)
  end. simpl.
  exists (match decode_ascii residual with
          | Some text =>
              ConnectionError ["Programmer did not acknowledge write"; text]
          | None => UnicodeDecodeError
          end), rest, lines.
  unfold link_events.
  destruct (decode_ascii residual) as [text|]; simpl;
    (split; [by rewrite <- !app_assoc | eauto]).
Qed.

(** ** The read loop, one iteration at a time *)

Lemma with_port_with_port (w : world) (r1 r2 : list (option byte))
    (e1 e2 : list event) :
  with_port (with_port w r1 e1) r2 e2 = with_port w r2 (e1 ++ e2).
Proof. unfold with_port. simpl. by rewrite <- app_assoc. Qed.

Lemma read_contents_body_plain (content : bytes) (w : world) (b : byte)
    (rest : list (option byte)) :
  rx (port w) = Some b :: rest → b ≠ x04 → b ≠ x1b →
  read_contents_body content w
  = Returned (inl (content ++ [b])) (with_port w rest [EvRead [b]]).
Proof.
  intros Hrx Hend Hesc. unfold read_contents_body. unfold_monad. simpl.
  rewrite Hrx. simpl.
  destruct (decide ([b] = end_char)) as [Heq|_]; [inversion Heq; done|].
  destruct (decide ([b] = esc_char)) as [Heq|_]; [inversion Heq; done|].
  reflexivity.
Qed.

Lemma read_contents_body_escaped (content : bytes) (w : world) (b : byte)
    (rest : list (option byte)) :
  rx (port w) = Some x1b :: Some b :: rest → b = x04 ∨ b = x1b →
  read_contents_body content w
  = Returned (inl (content ++ [b]))
             (with_port w rest [EvRead [x1b]; EvRead [b]]).
Proof.
  intros Hrx Hb. unfold read_contents_body. unfold_monad. simpl.
  rewrite Hrx. simpl.
  destruct (decide ([b] ∉ [end_char; esc_char])) as [Hnin|_].
  - exfalso. apply Hnin. destruct Hb as [-> | ->]; set_solver.
  - unfold with_port. simpl. by rewrite <- app_assoc.
Qed.

(** A read at the top of the loop that times out adds nothing and the
    loop goes round again. *)
Lemma read_contents_body_timeout (content : bytes) (w : world) :
  (raw_read (rx (port w))).1 = [] →
  read_contents_body content w
  = Returned (inl content)
             (with_port w (raw_read (rx (port w))).2 [EvRead []]).
Proof.
  intros Hread. unfold read_contents_body. unfold_monad. simpl.
  destruct (raw_read (rx (port w))) as [char rest]. simpl in *. subst char.
  simpl. by rewrite app_nil_r.
Qed.

(** A read directly after ESCAPE that times out, or gives a byte that is
    neither END nor ESCAPE, raises. *)
Lemma read_contents_body_invalid (content : bytes) (w : world)
    (rest : list (option byte)) :
  rx (port w) = Some x1b :: rest →
  (raw_read rest).1 ∉ [end_char; esc_char] →
  read_contents_body content w
  = Raised (AssertionError ["Invalid escape sequence received"])
           (with_port w (raw_read rest).2
                      [EvRead [x1b]; EvRead (raw_read rest).1]).
Proof.
  intros Hrx Hnin. unfold read_contents_body. unfold_monad. simpl.
  rewrite Hrx. simpl.
  destruct (raw_read rest) as [char rest']. simpl in *.
  destruct (decide (char ∉ [end_char; esc_char])) as [_|Hin]; [|done].
  unfold with_port. simpl. by rewrite <- app_assoc.
Qed.

Lemma read_contents_body_end (content : bytes) (w : world)
    (rest : list (option byte)) :
  rx (port w) = Some x04 :: rest →
  read_contents_body content w = end_of_frame content w rest.
Proof.
  intros Hrx. unfold read_contents_body, end_of_frame. unfold_monad. simpl.
  rewrite Hrx. simpl.
  destruct (raw_readline rest) as [line rest']. simpl.
  unfold with_port. simpl. rewrite <- app_assoc. simpl.
  destruct (int_of_bytes line) as [n|]; [|done]. simpl.
  destruct (decide (n ≠ len (escape_file_contents content))) as [Hne|Heq];
    destruct (decide (n = len (escape_file_contents content))); done.
Qed.

(** The wire image of [raw] takes one iteration per raw byte and leaves
    [raw] appended to the accumulated bytes. *)
Lemma read_contents_loop_consume (raw : bytes) :
  ∀ (content : bytes) (w : world) (rest : list (option byte)) (extra : nat),
    rx (port w) = map Some (escape_file_contents raw) ++ rest →
    read_contents_loop (List.length raw + extra) content w
    = read_contents_loop extra (content ++ raw)
        (with_port w rest (map (λ b, EvRead [b]) (escape_file_contents raw))).
Proof.
  induction raw as [|b raw IH]; intros content w rest extra Hrx.
  - simpl in *. rewrite app_nil_r. unfold with_port. rewrite app_nil_r.
    destruct w as [[? ?] ? ?]. simpl in *. by subst.
  - rewrite escape_file_contents_cons in *.
    change (List.length (b :: raw) + extra)%nat
      with (S (List.length raw + extra)).
    cbn [read_contents_loop]. unfold mbind at 1, M_bind at 1.
    destruct (decide (b = x04 ∨ b = x1b)) as [Hctl | Hplain].
    + rewrite escape_byte_control in * by tauto.
      rewrite (read_contents_body_escaped content w b
                 (map Some (escape_file_contents raw) ++ rest)) by done.
      rewrite (IH (content ++ [b]) _ rest extra) by done.
      rewrite with_port_with_port, <- app_assoc. reflexivity.
    + rewrite escape_byte_plain in * by tauto.
      rewrite (read_contents_body_plain content w b
                 (map Some (escape_file_contents raw) ++ rest)) by tauto.
      rewrite (IH (content ++ [b]) _ rest extra) by done.
      rewrite with_port_with_port, <- app_assoc. reflexivity.
Qed.

(** ** The read frame *)

Lemma read_contents_header (fuel : nat) (start_address length : Z) (w : world)
    (rest : list (option byte)) :
  rx (port w) = replicate 3 (Some x06) ++ rest →
  read_contents fuel start_address length w
  = read_contents_loop fuel []
      (with_port w rest (read_header_events start_address length)).
Proof.
  intros Hrx. unfold read_contents. simpl in Hrx.
  unfold mbind at 1 2 3, M_bind at 1 2 3.
  rewrite (acknowledged_write_acked _ w _ Hrx).
  rewrite (acknowledged_write_acked _ _ (Some x06 :: rest)) by done.
  rewrite (acknowledged_write_acked _ _ rest) by done.
  f_equal. unfold with_port, read_header_events. simpl.
  by rewrite <- !app_assoc.
Qed.

Lemma read_contents_loop_end (content : bytes) (w : world)
    (rest : list (option byte)) (extra : nat) :
  rx (port w) = Some x04 :: rest →
  read_contents_loop (S extra) content w
  = match end_of_frame content w rest with
    | Returned (inr result) w' => Returned result w'
    | Returned (inl content') w' => read_contents_loop extra content' w'
    | Raised e w' => Raised e w'
    | OutOfFuel w' => OutOfFuel w'
    end.
Proof.
  intros Hrx. cbn [read_contents_loop]. unfold mbind, M_bind.
  rewrite (read_contents_body_end content w rest Hrx).
  by destruct (end_of_frame content w rest) as [[?|?] ?|? ?|?].
Qed.

(** The whole read frame on a device that acknowledges the header, sends
    the wire image of [raw], END, and then whatever [rest] holds. *)
Lemma read_contents_frame (raw : bytes) (start_address length : Z) (w : world)
    (rest : list (option byte)) (extra : nat) :
  rx (port w) = replicate 3 (Some x06)
                ++ map Some (escape_file_contents raw) ++ Some x04 :: rest →
  read_contents (List.length raw + S extra) start_address length w
  = let line := (raw_readline rest).1 in
    let w' := with_port w (raw_readline rest).2
                (read_frame_events start_address length raw line) in
    match int_of_bytes line with
    | None => Raised ValueError w'
    | Some bytes_read =>
        if decide (bytes_read = len (escape_file_contents raw))
        then Returned raw w'
        else Raised (ReadCountMismatch (len (escape_file_contents raw))
                                       bytes_read) w'
    end.
Proof.
  intros Hrx.
  rewrite (read_contents_header _ _ _ w _ Hrx).
  rewrite (read_contents_loop_consume raw [] _ (Some x04 :: rest) (S extra))
    by done.
  rewrite with_port_with_port.
  rewrite (read_contents_loop_end _ _ rest extra) by done.
  unfold end_of_frame. cbv zeta.
  rewrite with_port_with_port.
  change ([] ++ raw) with raw.
  unfold read_frame_events. rewrite <- !app_assoc.
  destruct (int_of_bytes (raw_readline rest).1) as [n|]; [|done].
  by destruct (decide (n = len (escape_file_contents raw))).
Qed.

(** C2: unescaping, as the read loop does it, undoes
    [escape_file_contents]. The wire image of any byte sequence [raw]
    takes the loop through one iteration per raw byte without ending it
    and leaves exactly [raw] accumulated; followed by END and a count line
    that states the number of wire bytes, [read_contents] returns [raw]. *)
Theorem read_unescapes_escaped (raw : bytes) :
  (∀ (content : bytes) (w : world) (rest : list (option byte)) (extra : nat),
      rx (port w) = map Some (escape_file_contents raw) ++ rest →
      read_contents_loop (List.length raw + extra) content w
      = read_contents_loop extra (content ++ raw)
          (with_port w rest
             (map (λ b, EvRead [b]) (escape_file_contents raw)))) ∧
  (∀ (start_address length : Z) (w : world) (rest : list (option byte))
     (extra : nat),
      rx (port w) = replicate 3 (Some x06)
                    ++ map Some (escape_file_contents raw)
                    ++ Some x04 :: rest →
      int_of_bytes (raw_readline rest).1
      = Some (len (escape_file_contents raw)) →
      read_contents (List.length raw + S extra) start_address length w
      = Returned raw
          (with_port w (raw_readline rest).2
             (read_frame_events start_address length raw
                                (raw_readline rest).1))).
Proof.
  split.
  - apply read_contents_loop_consume.
  - intros start_address length w rest extra Hrx Hcount.
    rewrite (read_contents_frame raw _ _ w rest extra Hrx). simpl.
    rewrite Hcount.
    by destruct (decide (len (escape_file_contents raw)
                         = len (escape_file_contents raw))).
Qed.

Lemma read_unescapes_escaped_witness :
  read_contents 4 0 3
    (idle_world (replicate 3 (Some x06)
                 ++ map Some [x1b; x04; "A"%byte; x1b; x1b]
                 ++ Some x04 :: map Some (encode_ascii "5") ++ [Some x0a]))
  = Returned [x04; "A"%byte; x1b]
      (with_port
         (idle_world (replicate 3 (Some x06)
                      ++ map Some [x1b; x04; "A"%byte; x1b; x1b]
                      ++ Some x04 :: map Some (encode_ascii "5") ++ [Some x0a]))
         []
         (read_frame_events 0 3 [x04; "A"%byte; x1b]
                            (encode_ascii "5" ++ [x0a]))).
Proof.
  destruct (read_unescapes_escaped [x04; "A"%byte; x1b]) as [_ Hframe].
  apply (Hframe 0 3 _ (map Some (encode_ascii "5") ++ [Some x0a]) 0%nat);
    reflexivity.
Defined.

(** The count is the number of wire bytes: one raw END byte travels as
    two bytes, and the device must report 2. *)
Example read_contents_counts_wire_bytes :
  read_contents 2 0 1
    (idle_world (replicate 3 (Some x06)
                 ++ map Some [x1b; x04]
                 ++ Some x04 :: map Some (encode_ascii "2") ++ [Some x0a]))
  = Returned [x04]
      (mkWorld (mkSerial [] (read_frame_events 0 1 [x04]
                                               (encode_ascii "2" ++ [x0a])))
               ∅ []).
Proof. vm_compute. reflexivity. Qed.

(** ** The write frame *)

Lemma read_source_port (file : file_arg) (w w1 : world) (raw : bytes) :
  read_source file w = Returned raw w1 → port w1 = port w.
Proof.
  unfold read_source. destruct file as [name|ref].
  - destruct (files w !! name); intros H; inversion H; by subst.
  - destruct (heap w !! ref); intros H; inversion H; by subst.
Qed.

(** Reading the source does not depend on the port. *)
Lemma read_source_with_port (file : file_arg) (w w1 : world) (raw : bytes)
    (rest : list (option byte)) (evs : list event) :
  read_source file w = Returned raw w1 →
  read_source file (with_port w rest evs) = Returned raw (with_port w1 rest evs).
Proof.
  unfold read_source, with_port. destruct file as [name|ref]; simpl.
  - destruct (files w !! name); intros H; inversion H; by subst.
  - destruct (heap w !! ref); intros H; inversion H; by subst.
Qed.

Lemma format_file_with_port (file : file_arg) (w : world) (desc : string)
    (rest : list (option byte)) (evs : list event) :
  format_file file w = Returned desc w →
  format_file file (with_port w rest evs) = Returned desc (with_port w rest evs).
Proof.
  unfold format_file, with_port. destruct file as [name|ref]; simpl.
  - intros H; inversion H; by subst.
  - destruct (heap w !! ref) as [o|]; [|done].
    unfold FillBytes_repr. destruct (fill_byte o); [done|].
    unfold mret, M_ret. intros H; inversion H; by subst.
Qed.

Lemma acknowledged_write_with_port (data : bytes) (w : world)
    (rest : list (option byte)) (evs : list event) :
  acknowledged_write data (with_port w (Some x06 :: rest) evs)
  = Returned tt (with_port w rest (evs ++ link_events data ack_char)).
Proof.
  rewrite (acknowledged_write_acked data _ rest) by done.
  unfold with_port. simpl. by rewrite <- app_assoc.
Qed.

(** The payload loop on a device that acknowledges every byte. *)
Lemma for_each_acknowledged (payload : bytes) :
  ∀ (w : world) (rest : list (option byte)) (evs : list event),
    for_each payload (λ byte, acknowledged_write [byte])
      (with_port w (replicate (List.length payload) (Some x06) ++ rest) evs)
    = Returned tt (with_port w rest (evs ++ payload_events payload)).
Proof.
  induction payload as [|b payload IH]; intros w rest evs.
  - simpl. unfold mret, M_ret. by rewrite app_nil_r.
  - cbn [for_each List.length replicate app]. unfold mbind, M_bind.
    rewrite acknowledged_write_with_port.
    rewrite IH. unfold payload_events. simpl. by rewrite <- app_assoc.
Qed.

Lemma with_port_nil (w : world) :
  with_port w (rx (port w)) [] = w.
Proof.
  unfold with_port. rewrite app_nil_r. by destruct w as [[? ?] ? ?].
Qed.

(** The whole write frame on a device that acknowledges the two header
    chunks, every wire byte and END, and then sends what [rest] holds. *)
Lemma write_file_frame (file : file_arg) (start_address : Z) (w w1 : world)
    (raw : bytes) (desc : string) (rest : list (option byte)) :
  read_source file w = Returned raw w1 →
  format_file file w1 = Returned desc w1 →
  rx (port w) = replicate 2 (Some x06)
                ++ replicate (List.length (escape_file_contents raw)) (Some x06)
                ++ Some x06 :: rest →
  write_file file start_address w
  = let line := (raw_readline rest).1 in
    let w' := with_port w1 (raw_readline rest).2
                (write_frame_events start_address raw line) in
    match int_of_bytes line with
    | None => Raised ValueError w'
    | Some bytes_written =>
        if decide (bytes_written = len raw) then Returned tt w'
        else Raised (WriteCountMismatch bytes_written (len raw)) w'
    end.
Proof.
  intros Hsrc Hdesc Hrx. unfold write_file.
  rewrite <- (with_port_nil w) at 1. rewrite Hrx. simpl replicate.
  unfold mbind at 1, M_bind at 1. cbn [app].
  rewrite acknowledged_write_with_port.
  unfold mbind at 1, M_bind at 1.
  rewrite acknowledged_write_with_port.
  unfold mbind at 1, M_bind at 1.
  rewrite (read_source_with_port file w w1 raw _ _ Hsrc).
  unfold mbind at 1, M_bind at 1.
  rewrite (format_file_with_port file w1 desc _ _ Hdesc).
  unfold mbind at 1, M_bind at 1.
  rewrite for_each_acknowledged.
  unfold mbind at 1, M_bind at 1.
  rewrite acknowledged_write_with_port.
  unfold_monad. unfold with_port. simpl.
  destruct (raw_readline rest) as [line rest']. simpl.
  unfold write_frame_events, WriteCountMismatch.
  unfold link_events. rewrite <- !app_assoc. simpl.
  rewrite <- ?app_assoc. simpl.
  destruct (int_of_bytes line) as [n|]; [|done]. simpl.
  destruct (decide (n ≠ len raw)); destruct (decide (n = len raw)); done.
Qed.

(** ** Faults of the acknowledged link *)

(** When the bytes drained after a missing acknowledgement are ASCII, the
    exception is the [ConnectionError] that carries them as text. *)
Lemma acknowledged_write_link_fault (data : bytes) (w : world) :
  (raw_read (rx (port w))).1 ≠ ack_char →
  ∃ e w', acknowledged_write data w = Raised e w'
          ∧ (e = UnicodeDecodeError ∨ ∃ text, e = LinkFault text).
Proof.
  intros Hne.
  destruct (acknowledged_write_failed data w Hne) as (e & rest & lines & -> & He).
  eauto.
Qed.

(** C6: a send that is not acknowledged during a write should surface as
    the one Link Fault ([ConnectionError]) that carries the drained bytes.
    Here the header is acknowledged, the first payload byte is answered by
    0x15, and the device then sends the byte 0xFF and falls silent: the
    drained bytes are not ASCII, [decode("ascii")] fails while the
    arguments of the [ConnectionError] are built, and the exception that
    leaves [write_file] is [UnicodeDecodeError]. The count line is never
    read. *)
Theorem write_file_link_fault_not_ascii :
  write_file (Path "rom.bin") 0
    (mkWorld (mkSerial [Some x06; Some x06; Some x15; Some xff; None] [])
             {["rom.bin" := ["A"%byte]]} [])
  = Raised UnicodeDecodeError
      (mkWorld (mkSerial []
                  (link_events (encode_ascii "w ") ack_char
                   ++ link_events (encode_ascii "0") ack_char
                   ++ link_events ["A"%byte] [x15]
                   ++ [EvReadline [xff]; EvReadline []]))
               {["rom.bin" := ["A"%byte]]} []).
Proof. vm_compute. reflexivity. Qed.

(** The same failure with ASCII bytes left in the buffer gives the Link
    Fault with those bytes. *)
Example write_file_link_fault_ascii :
  write_file (Path "rom.bin") 0
    (mkWorld (mkSerial ([Some x06; Some x06; Some x15]
                        ++ map Some (encode_ascii "ERR") ++ [Some x0a; None]) [])
             {["rom.bin" := ["A"%byte]]} [])
  = Raised (LinkFault (String.append "ERR" (String "010"%char "")))
      (mkWorld (mkSerial []
                  (link_events (encode_ascii "w ") ack_char
                   ++ link_events (encode_ascii "0") ack_char
                   ++ link_events ["A"%byte] [x15]
                   ++ [EvReadline (encode_ascii "ERR" ++ [x0a]); EvReadline []]))
               {["rom.bin" := ["A"%byte]]} []).
Proof. vm_compute. reflexivity. Qed.

(** ** The verifier *)

(** [check_filled] on a region that holds the fill byte throughout. *)
Example check_filled_all_filled
    (context_diff : list string → list string → string → string → list string)
    (repr_str : string → string) :
  check_filled context_diff repr_str 17 [xff] 16 0
    (idle_world (replicate 3 (Some x06) ++ replicate 16 (Some xff)
                 ++ Some x04 :: map Some (encode_ascii "16") ++ [Some x0a]))
  = Returned tt
      (mkWorld (mkSerial [] (read_frame_events 0 16 (replicate 16 xff)
                                               (encode_ascii "16" ++ [x0a])))
               ∅ [mkFillBytes [xff] (replicate 16 xff) 16]).
Proof. vm_compute. reflexivity. Qed.

(** C7: on a region that holds a byte other than the fill byte,
    [check_filled] should raise the Not Filled fault whose message names
    the fill byte. Here the region of 16 bytes holds 0x00 at offset 3 and
    0xFF elsewhere: [verify_file] raises its [AssertionError], and the
    handler then formats the [bytes] object [fill_byte] with the format
    specification [02X], which raises [TypeError]; that is the exception
    that leaves [check_filled]. *)
Theorem check_filled_not_filled_raises_TypeError
    (context_diff : list string → list string → string → string → list string)
    (repr_str : string → string) :
  check_filled context_diff repr_str 17 [xff] 16 0
    (idle_world (replicate 3 (Some x06)
                 ++ replicate 3 (Some xff) ++ Some x00 :: replicate 12 (Some xff)
                 ++ Some x04 :: map Some (encode_ascii "16") ++ [Some x0a]))
  = Raised TypeError
      (mkWorld (mkSerial []
                  (read_frame_events 0 16
                     (replicate 3 xff ++ x00 :: replicate 12 xff)
                     (encode_ascii "16" ++ [x0a])))
               ∅ [mkFillBytes [xff] (replicate 16 xff) 16]).
Proof. vm_compute. reflexivity. Qed.

(** Whatever the arguments and whatever the device does, an
    [AssertionError] never leaves [check_filled]: the one [verify_file]
    raises is caught, and the handler raises [TypeError] before it can
    build its own. *)
Lemma check_filled_never_not_filled
    (context_diff : list string → list string → string → string → list string)
    (repr_str : string → string) (fuel : nat) (fill_byte : bytes)
    (length start_address : Z) (w w' : world) (args : list string) :
  check_filled context_diff repr_str fuel fill_byte length start_address w
  ≠ Raised (AssertionError args) w'.
Proof.
  unfold check_filled, try_except_AssertionError, new_FillBytes.
  unfold mbind at 1, M_bind at 1.
  match goal with |- context [verify_file ?d ?r ?f ?o ?s ?w0] =>
    destruct (verify_file d r f o s w0) as [[] w1|e w1|w1]
  end; try done.
  destruct e; done.
Qed.

(** ** Timeouts in the read loop *)

Lemma control_char_inv (char : bytes) :
  char ∈ [end_char; esc_char] ↔ char = [x04] ∨ char = [x1b].
Proof.
  rewrite list_elem_of_In. unfold end_char, esc_char. simpl.
  split; [intros [H|[H|[]]] | intros [H|H]]; auto.
Qed.

Lemma read_contents_body_returned (content : bytes) (w w' : world)
    (step : bytes + bytes) :
  read_contents_body content w = Returned step w' →
  match step with
  | inr _ => ∃ rest, rx (port w) = Some x04 :: rest
  | inl _ => ∀ x, x ∈ rx (port w') → x ∈ rx (port w)
  end.
Proof.
  destruct (rx (port w)) as [|[b|] rest] eqn:Hrx.
  - rewrite read_contents_body_timeout by (by rewrite Hrx).
    rewrite Hrx. intros H; inversion H; subst. simpl. done.
  - destruct (decide (b = x04)) as [-> | Hend].
    { rewrite (read_contents_body_end content w rest Hrx).
      unfold end_of_frame.
      destruct (int_of_bytes _); [|done].
      destruct (decide _); [|done].
      intros H; inversion H; subst. eauto. }
    destruct (decide (b = x1b)) as [-> | Hesc].
    { destruct (decide ((raw_read rest).1 ∈ [end_char; esc_char])) as [Hin|Hnin].
      - apply control_char_inv in Hin.
        destruct rest as [|[c|] rest']; simpl in Hin;
          [by destruct Hin | | by destruct Hin].
        rewrite (read_contents_body_escaped content w c rest' Hrx)
          by (destruct Hin as [H|H]; inversion H; auto).
        intros H; inversion H; subst. simpl.
        intros x Hx. by do 2 apply list_elem_of_further.
      - by rewrite (read_contents_body_invalid content w rest Hrx Hnin). }
    rewrite (read_contents_body_plain content w b rest Hrx Hend Hesc).
    intros H; inversion H; subst. simpl.
    intros x Hx. by apply list_elem_of_further.
  - rewrite read_contents_body_timeout by (by rewrite Hrx).
    rewrite Hrx. intros H; inversion H; subst. simpl.
    intros x Hx. by apply list_elem_of_further.
Qed.

(** The loop returns only after reading END at the top of an iteration. *)
Lemma read_contents_loop_returned (fuel : nat) :
  ∀ (content : bytes) (w w' : world) (result : bytes),
    read_contents_loop fuel content w = Returned result w' →
    Some x04 ∈ rx (port w).
Proof.
  induction fuel as [|fuel IH]; intros content w w' result; [done|].
  cbn [read_contents_loop]. unfold mbind, M_bind.
  destruct (read_contents_body content w) as [step w1|e w1|w1] eqn:Hbody;
    [|done|done].
  apply read_contents_body_returned in Hbody.
  destruct step as [content'|result'].
  - intros Hloop. apply Hbody. by eapply IH.
  - intros _. destruct Hbody as [rest ->]. apply list_elem_of_here.
Qed.

(** On a silent device the loop is still running after any number of
    iterations. *)
Lemma read_contents_loop_silent (fuel : nat) :
  ∀ (content : bytes) (w : world) (k : nat),
    rx (port w) = replicate k None →
    ∃ w', read_contents_loop fuel content w = OutOfFuel w'.
Proof.
  induction fuel as [|fuel IH]; intros content w k Hrx; [by eexists|].
  cbn [read_contents_loop]. unfold mbind, M_bind.
  rewrite read_contents_body_timeout by (rewrite Hrx; by destruct k).
  apply (IH _ _ (pred k)). simpl. rewrite Hrx. by destruct k.
Qed.

Lemma read_contents_loop_escaped_then_silent (fuel : nat) (raw content : bytes)
    (w : world) (k : nat) :
  rx (port w) = map Some (escape_file_contents raw) ++ replicate k None →
  ∃ w', read_contents_loop fuel content w = OutOfFuel w'.
Proof.
  intros Hrx. destruct (decide (fuel < List.length raw)%nat) as [Hlt|Hge].
  - rewrite <- (take_drop fuel raw) in Hrx.
    rewrite escape_file_contents_app, map_app, <- app_assoc in Hrx.
    pose proof (read_contents_loop_consume (take fuel raw) content w _ 0%nat Hrx)
      as Hrun.
    rewrite length_take, Nat.add_0_r, Nat.min_l in Hrun by lia.
    rewrite Hrun. by eexists.
  - replace fuel with (List.length raw + (fuel - List.length raw))%nat by lia.
    rewrite (read_contents_loop_consume raw content w _ _ Hrx).
    by apply (read_contents_loop_silent _ _ _ k).
Qed.

(** C10 as stated fails: the header is acknowledged, the device sends
    ESCAPE and then nothing. The read after ESCAPE times out, and instead
    of going on for ever [read_contents] raises. *)
Lemma read_timeout_after_escape_raises :
  (Some x04 ∉ replicate 3 (Some x06) ++ [Some x1b; None; None]) ∧
  read_contents 5 0 2
    (idle_world (replicate 3 (Some x06) ++ [Some x1b; None; None]))
  = Raised InvalidEscape
      (mkWorld (mkSerial [None]
                  (read_header_events 0 2 ++ [EvRead [x1b]; EvRead []]))
               ∅ []).
Proof.
  split; [|vm_compute; reflexivity].
  rewrite list_elem_of_In. simpl. intros H.
  repeat (destruct H as [H|H]; [discriminate H|]). done.
Qed.

(** ** Content sources *)

Lemma read_source_path (name : string) (content : bytes) (w : world) :
  files w !! name = Some content →
  read_source (Path name) w = Returned content w.
Proof. intros H. unfold read_source. by rewrite H. Qed.

Lemma read_source_fresh (fill_byte : bytes) (length : Z) (w : world) :
  read_source (Obj (List.length (heap w)))
    (mkWorld (port w) (files w)
       (heap w ++ [mkFillBytes fill_byte (bytes_mul fill_byte length) 0]))
  = Returned (bytes_mul fill_byte length)
      (mkWorld (port w) (files w)
         (heap w ++ [mkFillBytes fill_byte (bytes_mul fill_byte length)
                       (List.length (bytes_mul fill_byte length))])).
Proof.
  unfold read_source. simpl.
  rewrite list_lookup_middle by done. simpl.
  rewrite insert_app_r_alt by done. rewrite Nat.sub_diag. reflexivity.
Qed.

Lemma read_source_consumed (ref : nat) (o : FillBytes) (w : world) :
  heap w !! ref = Some o →
  position o = List.length (buffer o) →
  read_source (Obj ref) w = Returned [] w.
Proof.
  intros Hobj Hpos. unfold read_source. rewrite Hobj.
  unfold BytesIO_read. rewrite Hpos, drop_all, Nat.max_id.
  replace (mkFillBytes (fill_byte o) (buffer o) (List.length (buffer o)))
    with o by (destruct o; simpl in *; by subst).
  rewrite list_insert_id by done. by destruct w.
Qed.

(** C9, as the code has it: a source named by a path gives all the bytes
    of the file at every read; a [FillBytes] object gives its bytes at the
    first read and nothing at a second read of the same object; a newly
    built [FillBytes] with the same arguments gives the same bytes
    again. *)
Theorem content_source_reads :
  (∀ (name : string) (content : bytes) (w : world),
      files w !! name = Some content →
      read_twice (Path name) w = Returned (content, content) w) ∧
  (∀ (fill_byte : bytes) (length : Z) (w : world),
      ∃ w', (ref ← new_FillBytes fill_byte length ; read_twice (Obj ref)) w
            = Returned (bytes_mul fill_byte length, []) w') ∧
  (∀ (fill_byte : bytes) (length : Z) (w : world),
      ∃ w', (first ← (ref ← new_FillBytes fill_byte length ;
                      read_source (Obj ref)) ;
             second ← (ref ← new_FillBytes fill_byte length ;
                       read_source (Obj ref)) ;
             mret (first, second)) w
            = Returned (bytes_mul fill_byte length,
                        bytes_mul fill_byte length) w').
Proof.
  split; [|split].
  - intros name content w Hfile. unfold read_twice, mbind, M_bind.
    by rewrite !(read_source_path name content w Hfile).
  - intros fill_byte length w. eexists.
    unfold read_twice, new_FillBytes, mbind, M_bind.
    rewrite read_source_fresh.
    rewrite (read_source_consumed (List.length (heap w))
               (mkFillBytes fill_byte (bytes_mul fill_byte length)
                  (List.length (bytes_mul fill_byte length))));
      [reflexivity | simpl; by rewrite list_lookup_middle | reflexivity].
  - intros fill_byte length w. eexists.
    unfold new_FillBytes, mbind, M_bind.
    rewrite read_source_fresh.
    match goal with |- context [read_source _ (mkWorld ?p ?f (?h ++ [?o]))] =>
      change (read_source (Obj (List.length (heap w ++ [?o0])))
                (mkWorld p f (h ++ [o])))
        with (read_source (Obj (List.length (heap (mkWorld p f h))))
                (mkWorld (port (mkWorld p f h)) (files (mkWorld p f h))
                   (heap (mkWorld p f h) ++ [o])))
    end.
    rewrite read_source_fresh. reflexivity.
Qed.

Lemma content_source_reads_witness :
  read_twice (Path "rom.bin")
    (mkWorld (mkSerial [] []) {["rom.bin" := [x04; "A"%byte]]} [])
  = Returned ([x04; "A"%byte], [x04; "A"%byte])
      (mkWorld (mkSerial [] []) {["rom.bin" := [x04; "A"%byte]]} []).
Proof.
  destruct content_source_reads as (Hpath & _).
  apply Hpath. reflexivity.
Defined.

(** C9 as stated fails for the fill source: the second read of the same
    [FillBytes] object gives the empty sequence, not the bytes of the
    first read. *)
Lemma fill_source_second_read_differs :
  ∃ first second w',
    (ref ← new_FillBytes [xff] 2 ; read_twice (Obj ref)) (idle_world [])
    = Returned (first, second) w'
    ∧ first = [xff; xff] ∧ second = [] ∧ second ≠ first.
Proof.
  eexists _, _, _. split; [vm_compute; reflexivity|]. by repeat split.
Qed.

(** ** [format_hex] *)

Lemma append_cons (c : ascii) (s t : string) :
  String c s +:+ t = String c (s +:+ t).
Proof. reflexivity. Qed.

Lemma append_nil_l (t : string) : "" +:+ t = t.
Proof. reflexivity. Qed.

Lemma append_assoc (s1 s2 s3 : string) :
  (s1 +:+ s2) +:+ s3 = s1 +:+ (s2 +:+ s3).
Proof.
  induction s1 as [|c s1 IH]; [reflexivity|].
  rewrite !append_cons. by rewrite IH.
Qed.

Lemma append_nil_r (s : string) : s +:+ "" = s.
Proof.
  induction s as [|c s IH]; [reflexivity|].
  rewrite append_cons. by rewrite IH.
Qed.

Create Rewrite HintDb str_norm.
#[local] Hint Rewrite append_assoc append_nil_r append_nil_l append_cons
  : str_norm.

Ltac str_norm := autorewrite with str_norm.

Lemma format_hex_loop_acc (in_bytes : bytes) :
  ∀ (i : Z) (acc : string),
    format_hex_loop i in_bytes acc = acc +:+ format_hex_loop i in_bytes "".
Proof.
  induction in_bytes as [|b rest IH]; intros i acc; simpl.
  - by rewrite append_nil_r.
  - rewrite IH. rewrite (IH _ (_ +:+ format_byte b)).
    change (8 `div` 2) with 4.
    destruct (decide (i `mod` 8 = 0)); [|destruct (decide (i `mod` 4 = 0))];
      by str_norm.
Qed.

Lemma format_hex_loop_cons (i : Z) (b : byte) (rest : bytes) :
  format_hex_loop i (b :: rest) ""
  = separator i +:+ format_byte b +:+ format_hex_loop (i + 1) rest "".
Proof.
  cbn [format_hex_loop]. rewrite format_hex_loop_acc.
  change (8 `div` 2) with 4. unfold separator.
  destruct (decide (i `mod` 8 = 0)); [|destruct (decide (i `mod` 4 = 0))];
    by str_norm.
Qed.

Lemma separator_inside (k j : nat) :
  (0 < j < 8)%nat →
  separator (8 * Z.of_nat k + Z.of_nat j)
  = if decide (j = 4%nat) then " "%string else ""%string.
Proof.
  intros Hj. unfold separator.
  assert ((8 * Z.of_nat k + Z.of_nat j) `mod` 8 = Z.of_nat j) as ->.
  { symmetry. apply (Z.mod_unique_pos _ _ (Z.of_nat k)); lia. }
  destruct (decide (Z.of_nat j = 0)) as [|_]; [lia|].
  destruct (decide (j = 4%nat)) as [-> | Hne].
  - assert ((8 * Z.of_nat k + Z.of_nat 4) `mod` 4 = 0) as ->; [|done].
    symmetry. apply (Z.mod_unique_pos _ _ (2 * Z.of_nat k + 1)); lia.
  - destruct (decide (_ `mod` 4 = 0)) as [Hmod|]; [|done].
    exfalso.
    destruct (decide (j < 4)%nat).
    + rewrite <- (Z.mod_unique_pos _ 4 (2 * Z.of_nat k) (Z.of_nat j)) in Hmod;
        lia.
    + rewrite <- (Z.mod_unique_pos _ 4 (2 * Z.of_nat k + 1) (Z.of_nat j - 4))
        in Hmod; lia.
Qed.

Lemma separator_row_start (k : nat) :
  separator (8 * Z.of_nat k)
  = String "010"%char (format_address (8 * Z.of_nat k)).
Proof.
  unfold separator.
  assert ((8 * Z.of_nat k) `mod` 8 = 0) as ->; [|done].
  symmetry. apply (Z.mod_unique_pos _ _ (Z.of_nat k)); lia.
Qed.

Lemma format_hex_loop_inside (c : bytes) :
  ∀ (k j : nat) (rest : bytes),
    (0 < j)%nat → (j + List.length c ≤ 8)%nat →
    format_hex_loop (8 * Z.of_nat k + Z.of_nat j) (c ++ rest) ""
    = row_tail j c
      +:+ format_hex_loop (8 * Z.of_nat k + Z.of_nat (j + List.length c))
                          rest "".
Proof.
  induction c as [|b c IH]; intros k j rest Hj Hlen;
    cbn [app row_tail List.length] in *.
  - by rewrite Nat.add_0_r, append_nil_l.
  - rewrite format_hex_loop_cons. rewrite separator_inside by lia.
    replace (8 * Z.of_nat k + Z.of_nat j + 1)
      with (8 * Z.of_nat k + Z.of_nat (S j)) by lia.
    rewrite IH by lia.
    replace (S j + List.length c)%nat with (j + S (List.length c))%nat by lia.
    destruct (decide (j = 4%nat)); by str_norm.
Qed.

Lemma hex_row_cons (address : Z) (b : byte) (c : bytes) :
  (List.length c ≤ 7)%nat →
  hex_row address (b :: c)
  = format_address address +:+ format_byte b +:+ row_tail 1 c.
Proof.
  intros Hlen. unfold hex_row.
  do 8 (destruct c as [|? c]; [simpl; by str_norm|]).
  simpl in Hlen. lia.
Qed.

Lemma no_newline_app (s t : string) :
  no_newline (s +:+ t) = no_newline s && no_newline t.
Proof.
  induction s as [|c s IH]; [reflexivity|].
  rewrite append_cons. simpl. rewrite IH. by rewrite andb_assoc.
Qed.

Lemma no_newline_zeros (n : nat) : no_newline (zeros n) = true.
Proof. induction n as [|n IH]; [reflexivity|]. simpl. exact IH. Qed.

Lemma no_newline_hex_upper_digits (d : Hexadecimal.uint) :
  no_newline (hex_upper_digits d) = true.
Proof. induction d; simpl; done. Qed.

Lemma no_newline_format_X (w : nat) (n : N) : no_newline (format_X w n) = true.
Proof.
  unfold format_X.
  by rewrite no_newline_app, no_newline_zeros, no_newline_hex_upper_digits.
Qed.

Lemma no_newline_format_byte (b : byte) : no_newline (format_byte b) = true.
Proof.
  unfold format_byte. by rewrite no_newline_app, no_newline_format_X.
Qed.

Lemma no_newline_hex_group (block : bytes) : no_newline (hex_group block) = true.
Proof.
  induction block as [|b block IH]; [reflexivity|].
  simpl. by rewrite no_newline_app, no_newline_format_byte, IH.
Qed.

Lemma no_newline_hex_row (address : Z) (chunk : bytes) :
  no_newline (hex_row address chunk) = true.
Proof.
  unfold hex_row, format_address.
  rewrite !no_newline_app, no_newline_format_X, no_newline_hex_group.
  destruct (decide (drop 4 chunk = [])); [reflexivity|].
  by rewrite no_newline_app, no_newline_hex_group.
Qed.

Lemma split_lines_not_nil (s : string) : split_lines s ≠ [].
Proof.
  induction s as [|c s IH]; simpl; [done|].
  destruct (decide (c = "010"%char)); [done|].
  by destruct (split_lines s).
Qed.

Lemma split_lines_app_no_newline (s t : string) :
  no_newline s = true →
  split_lines (s +:+ t)
  = match split_lines t with
    | line :: lines => (s +:+ line) :: lines
    | [] => [s]
    end.
Proof.
  induction s as [|c s IH]; intros Hs.
  - rewrite append_nil_l.
    pose proof (split_lines_not_nil t). by destruct (split_lines t).
  - simpl in Hs. apply andb_prop in Hs as [Hc Hs].
    rewrite append_cons. cbn [split_lines].
    destruct (decide (c = "010"%char)) as [-> | _]; [done|].
    rewrite (IH Hs).
    pose proof (split_lines_not_nil t). by destruct (split_lines t).
Qed.

Lemma split_lines_rows_text (rows : list string) :
  Forall (λ row, no_newline row = true) rows →
  split_lines (rows_text rows) = "" :: rows.
Proof.
  induction 1 as [|row rows Hrow Hrows IH]; [reflexivity|].
  cbn [rows_text foldr split_lines].
  destruct (decide ("010"%char = "010"%char)) as [_|]; [|done].
  rewrite (split_lines_app_no_newline _ _ Hrow).
  fold (rows_text rows). rewrite IH. by rewrite append_nil_r.
Qed.

Lemma hex_rows_from_nil (k : nat) : hex_rows_from k [] = [].
Proof. reflexivity. Qed.

Lemma hex_rows_from_cons (k : nat) (in_bytes : bytes) :
  in_bytes ≠ [] →
  hex_rows_from k in_bytes
  = hex_row (8 * Z.of_nat k) (take 8 in_bytes)
    :: hex_rows_from (S k) (drop 8 in_bytes).
Proof.
  intros Hne. unfold hex_rows_from.
  assert (0 < List.length in_bytes)%nat as Hpos.
  { destruct in_bytes; [done|]. simpl. lia. }
  assert ((List.length in_bytes + 7) / 8
          = S ((List.length (drop 8 in_bytes) + 7) / 8))%nat as ->.
  { rewrite length_drop.
    destruct (decide (List.length in_bytes < 8)%nat).
    - replace (List.length in_bytes - 8 + 7)%nat with 7%nat by lia.
      symmetry. apply (Nat.div_unique _ 8 1 (List.length in_bytes - 1)); lia.
    - replace (List.length in_bytes + 7)%nat
        with ((List.length in_bytes - 8 + 7) + 1 * 8)%nat by lia.
      rewrite Nat.div_add by lia. lia. }
  cbn [seq map]. rewrite Nat.add_0_r. f_equal.
  rewrite <- seq_shift, map_map.
  apply map_ext. intros m.
  rewrite drop_drop.
  replace (8 * S m)%nat with (8 + 8 * m)%nat by lia.
  by replace (k + S m)%nat with (S k + m)%nat by lia.
Qed.

Lemma format_hex_loop_rows (n : nat) :
  ∀ (in_bytes : bytes) (k : nat),
    (List.length in_bytes ≤ n)%nat →
    format_hex_loop (8 * Z.of_nat k) in_bytes ""
    = rows_text (hex_rows_from k in_bytes).
Proof.
  induction n as [|n IH]; intros in_bytes k Hlen.
  - destruct in_bytes; [reflexivity|simpl in Hlen; lia].
  - destruct in_bytes as [|b tail]; [reflexivity|].
    rewrite hex_rows_from_cons by done.
    cbn [rows_text foldr]. fold (rows_text (hex_rows_from (S k) (drop 8 (b :: tail)))).
    change (take 8 (b :: tail)) with (b :: take 7 tail).
    change (drop 8 (b :: tail)) with (drop 7 tail).
    rewrite hex_row_cons by (rewrite length_take; lia).
    rewrite <- (IH (drop 7 tail) (S k))
      by (rewrite length_drop; simpl in Hlen; lia).
    rewrite <- (take_drop 7 tail) at 1.
    rewrite format_hex_loop_cons, separator_row_start.
    replace (8 * Z.of_nat k + 1) with (8 * Z.of_nat k + Z.of_nat 1) by lia.
    rewrite format_hex_loop_inside by (rewrite ?length_take; lia).
    assert (format_hex_loop
              (8 * Z.of_nat k + Z.of_nat (1 + List.length (take 7 tail)))
              (drop 7 tail) ""
            = format_hex_loop (8 * Z.of_nat (S k)) (drop 7 tail) "") as ->.
    { destruct (drop 7 tail) as [|x rest] eqn:Hdrop; [reflexivity|].
      assert (7 < List.length tail)%nat.
      { destruct (decide (7 < List.length tail)%nat); [done|].
        rewrite drop_ge in Hdrop by lia. done. }
      rewrite length_take. f_equal. lia. }
    by str_norm.
Qed.

(** C8, as the code has it: [format_hex] gives the empty string first (the
    text it splits starts with the newline in front of the first row) and
    then exactly one row per eight input bytes, the last row possibly
    shorter; each row starts with "0x", the address of its first byte in
    upper-case hexadecimal padded with zeros to four digits, and ":    ",
    and holds its bytes in two blocks of four separated by a space. *)
Theorem format_hex_rows (in_bytes : bytes) :
  format_hex in_bytes = "" :: hex_rows in_bytes ∧
  List.length (hex_rows in_bytes) = ((List.length in_bytes + 7) / 8)%nat ∧
  ∀ (k : nat) (row : string),
    hex_rows in_bytes !! k = Some row →
    row = hex_row (8 * Z.of_nat k) (take 8 (drop (8 * k) in_bytes)).
Proof.
  split; [|split].
  - unfold format_hex, hex_rows.
    change 0 with (8 * Z.of_nat 0).
    rewrite (format_hex_loop_rows (List.length in_bytes)) by lia.
    apply split_lines_rows_text.
    unfold hex_rows_from. apply Forall_forall. intros row Hin.
    apply list_elem_of_In, in_map_iff in Hin as (m & <- & _).
    apply no_newline_hex_row.
  - unfold hex_rows, hex_rows_from. by rewrite length_map, length_seq.
  - intros k row. unfold hex_rows, hex_rows_from.
    rewrite list_lookup_fmap.
    destruct (seq 0 ((List.length in_bytes + 7) / 8) !! k) as [m|] eqn:Hseq;
      [|done].
    apply lookup_seq in Hseq as [-> _]. simpl. by intros [= <-].
Qed.

Lemma format_hex_rows_witness :
  "0x0008:    38 39 41 42  43 44 45 46 "%string
  = hex_row (8 * Z.of_nat 1)
            (take 8 (drop (8 * 1) (encode_ascii "0123456789ABCDEF"))).
Proof.
  destruct (format_hex_rows (encode_ascii "0123456789ABCDEF")) as (_ & _ & Hrow).
  apply (Hrow 1%nat). reflexivity.
Defined.

(** C8 as stated fails on the example of the docstring: the sixteen bytes
    give three strings, not two, and the first is empty. *)
Lemma format_hex_doc_three_strings :
  List.length (format_hex (encode_ascii "0123456789ABCDEF")) = 3%nat ∧
  List.length (format_hex (encode_ascii "0123456789ABCDEF"))
  ≠ ((List.length (encode_ascii "0123456789ABCDEF") + 7) / 8)%nat ∧
  format_hex (encode_ascii "0123456789ABCDEF") !! 0%nat = Some ""%string.
Proof. vm_compute. repeat split; discriminate. Qed.

(** ** The link discipline *)

Lemma writes_app (evs1 evs2 : list event) :
  writes (evs1 ++ evs2) = writes evs1 ++ writes evs2.
Proof. unfold writes. apply omap_app. Qed.

Lemma in_flight_bounded_app (size : bytes → nat) (evs1 evs2 : list event) :
  ∀ pending,
    in_flight_bounded size pending (evs1 ++ evs2)
    = in_flight_bounded size pending evs1
      && in_flight_bounded size (pending_after size pending evs1) evs2.
Proof.
  induction evs1 as [|[data| |r|line] evs1 IH]; intros pending; simpl; try done.
  by rewrite IH, andb_assoc.
Qed.

Lemma pending_after_app (size : bytes → nat) (evs1 evs2 : list event) :
  ∀ pending,
    pending_after size pending (evs1 ++ evs2)
    = pending_after size (pending_after size pending evs1) evs2.
Proof.
  induction evs1 as [|[data| |r|line] evs1 IH]; intros pending; simpl; done.
Qed.

(** Events without a write keep the link as it is when nothing is
    pending. *)
Lemma no_writes_in_flight (size : bytes → nat) (evs : list event) :
  writes evs = [] →
  ∀ pending,
    in_flight_bounded size pending evs = true
    ∧ (pending_after size pending evs ≤ pending)%nat.
Proof.
  induction evs as [|[data| |r|line] evs IH]; intros Hw pending; simpl.
  - split; [done|lia].
  - discriminate Hw.
  - by apply IH.
  - destruct (decide (r = ack_char)); [|by apply IH].
    destruct (IH Hw 0%nat). split; [done|lia].
  - by apply IH.
Qed.

Lemma quiet_link_ok {A} (c : M A) (w : world) : quiet c → link_ok c w [].
Proof.
  intros Hq. destruct (Hq w) as (evs & Hlog & Hw).
  exists evs. destruct (no_writes_in_flight (λ _, 1%nat) evs Hw 0%nat) as [Hok Hp].
  rewrite Hw. repeat split; auto. lia.
Qed.

Lemma link_ok_bind {A B} (c : M A) (k : A → M B) (w : world)
    (cs1 cs2 : list bytes) :
  link_ok c w cs1 →
  (∀ a w', c w = Returned a w' → link_ok (k a) w' cs2) →
  link_ok (c ≫= k) w (cs1 ++ cs2).
Proof.
  intros (evs1 & Hlog1 & Hok1 & Hpre1 & Hret1) Hk.
  unfold link_ok, mbind, M_bind.
  destruct (c w) as [a w1|e w1|w1] eqn:Hc; simpl in Hlog1.
  - destruct (Hret1 a w1 eq_refl) as [Hp1 Hw1].
    destruct (Hk a w1 eq_refl) as (evs2 & Hlog2 & Hok2 & Hpre2 & Hret2).
    exists (evs1 ++ evs2). repeat split.
    + by rewrite Hlog2, Hlog1, <- app_assoc.
    + unfold one_chunk_in_flight in *.
      by rewrite in_flight_bounded_app, Hok1, Hp1.
    + rewrite writes_app, Hw1. by apply prefix_app.
    + rewrite pending_after_app, Hp1. by eapply Hret2.
    + rewrite writes_app, Hw1. f_equal. by eapply Hret2.
  - exists evs1. repeat split; auto; [by apply prefix_app_r|done|done].
  - exists evs1. repeat split; auto; [by apply prefix_app_r|done|done].
Qed.

Lemma quiet_bind {A B} (c : M A) (k : A → M B) :
  quiet c → (∀ a, quiet (k a)) → quiet (c ≫= k).
Proof.
  intros Hc Hk w. unfold mbind, M_bind.
  destruct (Hc w) as (evs1 & Hlog1 & Hw1).
  destruct (c w) as [a w1|e w1|w1]; simpl in Hlog1; [|by eauto..].
  destruct (Hk a w1) as (evs2 & Hlog2 & Hw2).
  exists (evs1 ++ evs2). split.
  - by rewrite Hlog2, Hlog1, <- app_assoc.
  - by rewrite writes_app, Hw1, Hw2.
Qed.

Lemma quiet_mret {A} (a : A) : quiet (mret a).
Proof. intros w. exists []. by rewrite app_nil_r. Qed.

Lemma quiet_raise {A} (e : exn) : quiet (raise (A := A) e).
Proof. intros w. exists []. by rewrite app_nil_r. Qed.

Lemma quiet_from_option {A} (e : exn) (o : option A) : quiet (from_option e o).
Proof. destruct o; [apply quiet_mret | apply quiet_raise]. Qed.

Lemma quiet_port_read : quiet port_read.
Proof.
  intros w. unfold port_read, serial_read.
  destruct (raw_read (rx (port w))) as [char rest]. by exists [EvRead char].
Qed.

Lemma quiet_port_readline : quiet port_readline.
Proof.
  intros w. unfold port_readline, serial_readline.
  destruct (raw_readline (rx (port w))) as [line rest].
  by exists [EvReadline line].
Qed.

Lemma quiet_read_source (file : file_arg) : quiet (read_source file).
Proof.
  intros w. exists []. rewrite app_nil_r. unfold read_source.
  destruct file as [name|ref].
  - by destruct (files w !! name).
  - by destruct (heap w !! ref).
Qed.

Lemma quiet_format_file (file : file_arg) : quiet (format_file file).
Proof.
  intros w. exists []. rewrite app_nil_r. unfold format_file.
  destruct file as [name|ref]; [done|].
  destruct (heap w !! ref) as [o|]; [|done].
  unfold FillBytes_repr. by destruct (fill_byte o).
Qed.

Lemma quiet_read_contents_body (content : bytes) :
  quiet (read_contents_body content).
Proof.
  unfold read_contents_body.
  apply quiet_bind; [apply quiet_port_read|]. intros char.
  destruct (decide (char = end_char)).
  - apply quiet_bind; [apply quiet_port_readline|]. intros response.
    apply quiet_bind; [apply quiet_from_option|]. intros bytes_read.
    destruct (decide _); [apply quiet_raise | apply quiet_mret].
  - apply quiet_bind; [|intros; apply quiet_mret].
    destruct (decide (char = esc_char)); [|apply quiet_mret].
    apply quiet_bind; [apply quiet_port_read|]. intros char'.
    destruct (decide _); [apply quiet_raise | apply quiet_mret].
Qed.

Lemma quiet_read_contents_loop (fuel : nat) :
  ∀ content, quiet (read_contents_loop fuel content).
Proof.
  induction fuel as [|fuel IH]; intros content.
  - intros w. exists []. by rewrite app_nil_r.
  - cbn [read_contents_loop].
    apply quiet_bind; [apply quiet_read_contents_body|].
    intros [content'|result]; [apply IH | apply quiet_mret].
Qed.

(** One acknowledged write sends its chunk, and returns only when the
    chunk was acknowledged. *)
Lemma link_ok_acknowledged_write (data : bytes) (w : world) :
  link_ok (acknowledged_write data) w [data].
Proof.
  destruct (decide ((raw_read (rx (port w))).1 = ack_char)) as [Hack|Hne].
  - assert (∃ rest, rx (port w) = Some x06 :: rest) as [rest Hrx].
    { destruct (rx (port w)) as [|[b|] rest]; simpl in Hack; try done.
      inversion Hack. eauto. }
    exists (link_events data ack_char).
    rewrite (acknowledged_write_acked data w rest Hrx). simpl.
    repeat split; auto.
  - destruct (acknowledged_write_failed data w Hne)
      as (e & rest & lines & Hrun & _).
    exists (link_events data (raw_read (rx (port w))).1 ++ map EvReadline lines).
    rewrite Hrun.
    assert (writes (map EvReadline lines) = []) as Hq
      by (clear; by induction lines).
    split; [done|]. split; [|split].
    + unfold one_chunk_in_flight, link_events. simpl.
      destruct (decide ((raw_read (rx (port w))).1 = ack_char)); [done|].
      by apply no_writes_in_flight.
    + rewrite writes_app, Hq. done.
    + intros a w' Heq. discriminate Heq.
Qed.

Lemma acknowledged_write_keeps_store (data : bytes) (w w' : world) (a : unit) :
  acknowledged_write data w = Returned a w' →
  files w' = files w ∧ heap w' = heap w.
Proof.
  destruct (decide ((raw_read (rx (port w))).1 = ack_char)) as [Hack|Hne].
  - assert (∃ rest, rx (port w) = Some x06 :: rest) as [rest Hrx].
    { destruct (rx (port w)) as [|[b|] rest]; simpl in Hack; try done.
      inversion Hack. eauto. }
    rewrite (acknowledged_write_acked data w rest Hrx).
    intros H; inversion H; by subst.
  - destruct (acknowledged_write_failed data w Hne)
      as (e & rest & lines & -> & _). done.
Qed.

Lemma link_ok_for_each (payload : bytes) :
  ∀ w, link_ok (for_each payload (λ byte, acknowledged_write [byte])) w
               (map (λ byte, [byte]) payload).
Proof.
  induction payload as [|b payload IH]; intros w.
  - apply quiet_link_ok, quiet_mret.
  - cbn [for_each map].
    apply (link_ok_bind _ _ w [[b]] (map (λ byte, [byte]) payload)).
    + apply link_ok_acknowledged_write.
    + intros _ w' _. apply IH.
Qed.

Lemma source_content_store (file : file_arg) (w w' : world) :
  files w' = files w → heap w' = heap w →
  source_content file w' = source_content file w.
Proof.
  intros Hf Hh. unfold source_content, read_source. rewrite Hf, Hh.
  destruct file as [name|ref].
  - by destruct (files w !! name).
  - by destruct (heap w !! ref).
Qed.

Lemma write_file_link_ok (file : file_arg) (start_address : Z) (w : world) :
  link_ok (write_file file start_address) w
          (write_frame_chunks start_address (source_content file w)).
Proof.
  unfold write_file, write_frame_chunks.
  apply (link_ok_bind _ _ w [encode_ascii "w "]
           ([encode_ascii (str_int start_address)]
            ++ map (λ byte, [byte])
                   (escape_file_contents (source_content file w))
            ++ [end_char])); [apply link_ok_acknowledged_write|].
  intros [] w1 H1. apply acknowledged_write_keeps_store in H1 as [Hf1 Hh1].
  apply (link_ok_bind _ _ w1 [encode_ascii (str_int start_address)]);
    [apply link_ok_acknowledged_write|].
  intros [] w2 H2. apply acknowledged_write_keeps_store in H2 as [Hf2 Hh2].
  apply (link_ok_bind _ _ w2 []); [apply quiet_link_ok, quiet_read_source|].
  intros raw_content w3 H3.
  assert (source_content file w = raw_content) as ->.
  { rewrite <- (source_content_store file w w2) by congruence.
    unfold source_content. by rewrite H3. }
  apply (link_ok_bind _ _ w3 []); [apply quiet_link_ok, quiet_format_file|].
  intros _ w4 _.
  apply link_ok_bind; [apply link_ok_for_each|]. intros _ w5 _.
  apply (link_ok_bind _ _ w5 [end_char] []);
    [apply link_ok_acknowledged_write|].
  intros _ w6 _. apply quiet_link_ok.
  apply quiet_bind; [apply quiet_port_readline|]. intros response.
  apply quiet_bind; [apply quiet_from_option|]. intros bytes_written.
  destruct (decide _); [apply quiet_raise | apply quiet_mret].
Qed.

Lemma read_contents_link_ok (fuel : nat) (start_address length : Z) (w : world) :
  link_ok (read_contents fuel start_address length) w
          (read_frame_chunks start_address length).
Proof.
  unfold read_contents, read_frame_chunks.
  apply (link_ok_bind _ _ w [encode_ascii "r "]
           [encode_ascii (str_int start_address);
            encode_ascii (str_int length)]);
    [apply link_ok_acknowledged_write|].
  intros _ w1 _.
  apply (link_ok_bind _ _ w1 [encode_ascii (str_int start_address)]
           [encode_ascii (str_int length)]);
    [apply link_ok_acknowledged_write|].
  intros _ w2 _.
  apply (link_ok_bind _ _ w2 [encode_ascii (str_int length)] []);
    [apply link_ok_acknowledged_write|].
  intros _ w3 _. apply quiet_link_ok, quiet_read_contents_loop.
Qed.

(** C1, as the code has it: in a write frame and in a read frame every
    chunk handed to [Serial.write] is acknowledged before the next chunk
    is written, so at most one chunk is unacknowledged at any time. The
    chunks are, in this order, the command token (two bytes in one
    chunk), the decimal text of the address (one chunk), for a read the
    decimal text of the length (one chunk), and for a write each byte of
    the escaped content as a chunk of its own and then END; sending stops
    at the first chunk that is not acknowledged, and a frame that returns
    has sent them all. *)
Theorem chunks_acknowledged_in_order :
  (∀ (file : file_arg) (start_address : Z) (w : world),
      ∃ evs,
        log (port (final_world (write_file file start_address w)))
        = log (port w) ++ evs
        ∧ one_chunk_in_flight evs = true
        ∧ writes evs
          `prefix_of` write_frame_chunks start_address (source_content file w)
        ∧ (∀ w', write_file file start_address w = Returned tt w' →
             writes evs
             = write_frame_chunks start_address (source_content file w))) ∧
  (∀ (fuel : nat) (start_address length : Z) (w : world),
      ∃ evs,
        log (port (final_world (read_contents fuel start_address length w)))
        = log (port w) ++ evs
        ∧ one_chunk_in_flight evs = true
        ∧ writes evs `prefix_of` read_frame_chunks start_address length
        ∧ (∀ result w',
             read_contents fuel start_address length w = Returned result w' →
             writes evs = read_frame_chunks start_address length)).
Proof.
  split.
  - intros file start_address w.
    destruct (write_file_link_ok file start_address w)
      as (evs & Hlog & Hok & Hpre & Hret).
    exists evs. repeat split; auto.
    intros w' Hrun. by destruct (Hret tt w' Hrun).
  - intros fuel start_address length w.
    destruct (read_contents_link_ok fuel start_address length w)
      as (evs & Hlog & Hok & Hpre & Hret).
    exists evs. repeat split; auto.
    intros result w' Hrun. by destruct (Hret result w' Hrun).
Qed.

Lemma chunks_acknowledged_in_order_witness :
  ∃ evs,
    log (port (final_world
      (write_file (Path "rom.bin") 16
         (mkWorld (mkSerial (replicate 6 (Some x06)
                             ++ map Some (encode_ascii "2") ++ [Some x0a]) [])
                  {["rom.bin" := [x04; "A"%byte]]} []))))
    = [] ++ evs
    ∧ writes evs
      = [encode_ascii "w "; encode_ascii "16"; [x1b]; [x04]; ["A"%byte]; [x04]].
Proof.
  destruct chunks_acknowledged_in_order as [Hwrite _].
  destruct (Hwrite (Path "rom.bin") 16
              (mkWorld (mkSerial (replicate 6 (Some x06)
                                  ++ map Some (encode_ascii "2") ++ [Some x0a]) [])
                       {["rom.bin" := [x04; "A"%byte]]} []))
    as (evs & Hlog & _ & _ & Hall).
  exists evs. split; [exact Hlog|].
  rewrite (Hall (final_world
                   (write_file (Path "rom.bin") 16
                      (mkWorld (mkSerial (replicate 6 (Some x06)
                                          ++ map Some (encode_ascii "2")
                                          ++ [Some x0a]) [])
                               {["rom.bin" := [x04; "A"%byte]]} [])))).
  - reflexivity.
  - vm_compute. reflexivity.
Defined.

(** C1 as stated fails: the first thing a write frame sends is the
    two-byte command token in one call of [Serial.write], followed by one
    read, so the second byte leaves before the first is acknowledged and
    two bytes are unacknowledged at once; with address 16 the two digits
    of the address go out together as well. The device here acknowledges
    every chunk. *)
Lemma command_token_sent_as_one_chunk :
  writes (log (port (final_world
    (write_file (Path "rom.bin") 16
       (mkWorld (mkSerial (replicate 6 (Some x06)
                           ++ map Some (encode_ascii "2") ++ [Some x0a]) [])
                {["rom.bin" := [x04; "A"%byte]]} [])))))
  = [encode_ascii "w "; encode_ascii "16"; [x1b]; [x04]; ["A"%byte]; [x04]]
  ∧ one_byte_in_flight (log (port (final_world
      (write_file (Path "rom.bin") 16
         (mkWorld (mkSerial (replicate 6 (Some x06)
                             ++ map Some (encode_ascii "2") ++ [Some x0a]) [])
                  {["rom.bin" := [x04; "A"%byte]]} []))))) = false
  ∧ one_byte_in_flight (log (port (final_world
      (read_contents 1 0 0
         (idle_world (replicate 3 (Some x06)
                      ++ Some x04 :: map Some (encode_ascii "0")
                      ++ [Some x0a])))))) = false.
Proof. vm_compute. repeat split. Qed.

(** * Further properties of the code *)

(** ** The codec *)

Lemma escape_byte_cases (b : byte) :
  (escape_byte [b] = [x1b; b] ∧ (b = x04 ∨ b = x1b))
  ∨ (escape_byte [b] = [b] ∧ b ≠ x04 ∧ b ≠ x1b).
Proof.
  destruct (decide (b = x04 ∨ b = x1b)) as [Hctl|Hplain].
  - left. split; [|done]. apply escape_byte_control. tauto.
  - right. split; [|tauto]. apply escape_byte_plain; tauto.
Qed.

(** The escaped forms of single bytes are prefix-free. *)
Lemma escape_byte_app_inj (a b : byte) (xs ys : bytes) :
  escape_byte [a] ++ xs = escape_byte [b] ++ ys → a = b ∧ xs = ys.
Proof.
  destruct (escape_byte_cases a) as [[-> Ha]|(-> & Ha1 & Ha2)];
    destruct (escape_byte_cases b) as [[-> Hb]|(-> & Hb1 & Hb2)];
    simpl; intros Heq; inversion Heq; subst; try done.
Qed.

(** [escape_file_contents] loses nothing: two byte sequences with the
    same wire image are the same sequence. *)
Theorem escape_file_contents_inj (xs ys : bytes) :
  escape_file_contents xs = escape_file_contents ys → xs = ys.
Proof.
  revert ys. induction xs as [|a xs IH]; intros [|b ys].
  - done.
  - rewrite escape_file_contents_cons, escape_file_contents_nil.
    destruct (escape_byte_cases b) as [[-> _]|[-> _]]; done.
  - rewrite escape_file_contents_cons, escape_file_contents_nil.
    destruct (escape_byte_cases a) as [[-> _]|[-> _]]; done.
  - rewrite !escape_file_contents_cons. intros Heq.
    apply escape_byte_app_inj in Heq as [-> Heq]. f_equal. by apply IH.
Qed.

Lemma escape_file_contents_inj_witness :
  [x04; "A"%byte] = [x04; "A"%byte].
Proof.
  apply (escape_file_contents_inj [x04; "A"%byte] [x04; "A"%byte]).
  reflexivity.
Defined.

(** The wire image has one byte per raw byte and one more for every END
    or ESCAPE among them; so it is at least as long as the raw content
    and at most twice as long. *)
Theorem escape_file_contents_length (contents : bytes) :
  List.length (escape_file_contents contents)
  = (List.length contents + control_bytes contents)%nat
  ∧ (List.length contents ≤ List.length (escape_file_contents contents)
     ≤ 2 * List.length contents)%nat.
Proof.
  assert (List.length (escape_file_contents contents)
          = (List.length contents + control_bytes contents)%nat) as Hlen.
  { induction contents as [|b contents IH]; [reflexivity|].
    rewrite escape_file_contents_cons, length_app, IH.
    unfold control_bytes. rewrite filter_cons.
    destruct (escape_byte_cases b) as [[-> Hb]|(-> & Hb1 & Hb2)].
    - destruct (decide (b = x04 ∨ b = x1b)); [simpl; lia|done].
    - destruct (decide (b = x04 ∨ b = x1b)); [tauto|simpl; lia]. }
  split; [exact Hlen|]. rewrite Hlen.
  pose proof (length_filter (λ b, b = x04 ∨ b = x1b) contents) as Hle.
  unfold control_bytes. lia.
Qed.

(** ** The acknowledged link *)

Lemma raw_readline_all_delivered (bs : bytes) :
  ∃ line rest,
    raw_readline (map Some bs) = (line, map Some rest)
    ∧ bs = line ++ rest ∧ (bs ≠ [] → line ≠ []).
Proof.
  induction bs as [|b bs IH].
  - by exists [], [].
  - simpl. destruct (decide (b = newline)) as [->|Hnl].
    + by exists [newline], bs.
    + destruct IH as (line & rest & -> & -> & _).
      by exists (b :: line), rest.
Qed.

Lemma flush_read_buffer_loop_all_delivered (fuel : nat) :
  ∀ (bs content : bytes) (s : Serial),
    rx s = map Some bs → (List.length bs < fuel)%nat →
    ∃ lines,
      flush_read_buffer_loop fuel content s
      = Some (content ++ bs, mkSerial [] (log s ++ map EvReadline lines))
      ∧ mjoin lines = bs.
Proof.
  induction fuel as [|fuel IH]; intros bs content s Hrx Hlen; [lia|].
  simpl. unfold serial_readline. rewrite Hrx.
  destruct (raw_readline_all_delivered bs) as (line & rest & -> & Hbs & Hne).
  destruct (decide (line = [])) as [->|Hline].
  - destruct bs as [|b bs]; [|by destruct Hne].
    simpl in Hbs. subst rest. exists [[]]. by rewrite app_nil_r.
  - destruct (IH rest (content ++ line)
                 (mkSerial (map Some rest) (log s ++ [EvReadline line])))
      as (lines & -> & Hjoin); [done| |].
    { subst bs. rewrite length_app in Hlen.
      destruct line; [done|]. simpl in Hlen. lia. }
    exists (line :: lines). simpl. subst bs.
    by rewrite <- !app_assoc, Hjoin.
Qed.

(** When the device has [bs] to deliver and then falls silent,
    [flush_read_buffer] returns exactly [bs], read line by line, and
    leaves nothing in the buffer. *)
Theorem flush_read_buffer_drains_all (w : world) (bs : bytes) :
  rx (port w) = map Some bs →
  ∃ lines,
    flush_read_buffer w
    = Returned bs (with_port w [] (map EvReadline lines))
    ∧ mjoin lines = bs.
Proof.
  intros Hrx. unfold flush_read_buffer.
  destruct (flush_read_buffer_loop_all_delivered
              (S (List.length (rx (port w)))) bs [] (port w) Hrx)
    as (lines & -> & Hjoin).
  { rewrite Hrx, length_map. lia. }
  exists lines. split; [reflexivity|exact Hjoin].
Qed.

Lemma flush_read_buffer_drains_all_witness :
  ∃ lines,
    flush_read_buffer (idle_world (map Some (encode_ascii "ERR 1" ++ [x0a]
                                             ++ encode_ascii "x")))
    = Returned (encode_ascii "ERR 1" ++ [x0a] ++ encode_ascii "x")
        (with_port (idle_world (map Some (encode_ascii "ERR 1" ++ [x0a]
                                          ++ encode_ascii "x")))
                   [] (map EvReadline lines))
    ∧ mjoin lines = encode_ascii "ERR 1" ++ [x0a] ++ encode_ascii "x".
Proof.
  apply (flush_read_buffer_drains_all
           (idle_world (map Some (encode_ascii "ERR 1" ++ [x0a]
                                  ++ encode_ascii "x")))).
  reflexivity.
Defined.



(** A chunk answered by a byte other than ACK, followed by an ASCII
    message and then silence: the [ConnectionError] carries exactly that
    message, and the buffer is left empty. *)
Theorem acknowledged_write_link_fault_message (data : bytes) (w : world)
    (b : byte) (message : bytes) (text : string) :
  rx (port w) = Some b :: map Some message →
  b ≠ x06 →
  decode_ascii message = Some text →
  ∃ lines,
    acknowledged_write data w
    = Raised (LinkFault text)
        (with_port w [] (link_events data [b] ++ map EvReadline lines))
    ∧ mjoin lines = message.
Proof.
  intros Hrx Hb Hdecode. unfold acknowledged_write. unfold_monad. simpl.
  rewrite Hrx. simpl.
  destruct (decide ([b] ≠ ack_char)) as [_|Heq];
    [|exfalso; apply Heq; intros H; inversion H; done].
  match goal with |- context [flush_read_buffer ?w1] =>
    destruct (flush_read_buffer_drains_all w1 message eq_refl)
      as (lines & -> & Hjoin)
  end.
  exists lines. split; [|exact Hjoin].
  rewrite Hdecode. simpl. unfold with_port, link_events, LinkFault. simpl.
  by rewrite <- !app_assoc.
Qed.

Lemma acknowledged_write_link_fault_message_witness :
  ∃ lines,
    acknowledged_write [x04]
      (idle_world (Some x15 :: map Some (encode_ascii "ERR")))
    = Raised (LinkFault "ERR")
        (with_port (idle_world (Some x15 :: map Some (encode_ascii "ERR")))
                   [] (link_events [x04] [x15] ++ map EvReadline lines))
    ∧ mjoin lines = encode_ascii "ERR".
Proof.
  apply (acknowledged_write_link_fault_message [x04]
           (idle_world (Some x15 :: map Some (encode_ascii "ERR")))
           x15 (encode_ascii "ERR") "ERR"); [reflexivity|discriminate|reflexivity].
Defined.

(** ** Frames that fail *)

Lemma acknowledged_write_cases (data : bytes) (w : world) :
  (∃ rest, rx (port w) = Some x06 :: rest
           ∧ acknowledged_write data w
             = Returned tt (with_port w rest (link_events data ack_char)))
  ∨ (∃ e w', acknowledged_write data w = Raised e w' ∧ ¬ is_AssertionError e).
Proof.
  destruct (decide ((raw_read (rx (port w))).1 = ack_char)) as [Hack|Hne].
  - left. destruct (rx (port w)) as [|[b|] rest] eqn:Hrx; simpl in Hack;
      try done.
    inversion Hack; subst. exists rest. split; [done|].
    by rewrite (acknowledged_write_acked data w rest Hrx).
  - right. destruct (acknowledged_write_failed data w Hne)
      as (e & rest & lines & -> & He).
    eexists _, _. split; [done|]. intros [args ->].
    destruct He as [He|[text He]]; discriminate He.
Qed.

Lemma for_each_cases (payload : bytes) :
  ∀ w,
    (∃ rest, rx (port w) = replicate (List.length payload) (Some x06) ++ rest
             ∧ for_each payload (λ byte, acknowledged_write [byte]) w
               = Returned tt (with_port w rest (payload_events payload)))
    ∨ (∃ e w', for_each payload (λ byte, acknowledged_write [byte]) w
               = Raised e w' ∧ ¬ is_AssertionError e).
Proof.
  induction payload as [|b payload IH]; intros w.
  - left. exists (rx (port w)). split; [done|].
    simpl. unfold mret, M_ret. by rewrite with_port_nil.
  - cbn [for_each]. unfold mbind, M_bind.
    destruct (acknowledged_write_cases [b] w)
      as [(rest & Hrx & ->)|(e & w' & -> & He)]; [|right; eauto].
    destruct (IH (with_port w rest (link_events [b] ack_char)))
      as [(rest' & Hrx' & ->)|(e & w' & -> & He)]; [|right; eauto].
    left. exists rest'. simpl in Hrx'. split.
    + rewrite Hrx. simpl. by rewrite Hrx'.
    + by rewrite with_port_with_port.
Qed.

Lemma read_source_with_port_eq (file : file_arg) (w : world)
    (rest : list (option byte)) (evs : list event) :
  read_source file (with_port w rest evs)
  = match read_source file w with
    | Returned raw w1 => Returned raw (with_port w1 rest evs)
    | Raised e w1 => Raised e (with_port w1 rest evs)
    | OutOfFuel w1 => OutOfFuel (with_port w1 rest evs)
    end.
Proof.
  unfold read_source, with_port. destruct file as [name|ref]; simpl.
  - by destruct (files w !! name).
  - by destruct (heap w !! ref).
Qed.

Lemma read_source_raises (file : file_arg) (w w' : world) (e : exn) :
  read_source file w = Raised e w' → ¬ is_AssertionError e.
Proof.
  unfold read_source. destruct file as [name|ref].
  - destruct (files w !! name); intros H [args ->]; discriminate H.
  - destruct (heap w !! ref); intros H [args ->]; discriminate H.
Qed.

Lemma format_file_with_port_eq (file : file_arg) (w : world)
    (rest : list (option byte)) (evs : list event) :
  format_file file (with_port w rest evs)
  = match format_file file w with
    | Returned desc _ => Returned desc (with_port w rest evs)
    | Raised e _ => Raised e (with_port w rest evs)
    | OutOfFuel _ => OutOfFuel (with_port w rest evs)
    end.
Proof.
  unfold format_file, with_port. destruct file as [name|ref]; simpl; [done|].
  destruct (heap w !! ref) as [o|]; [|done].
  unfold FillBytes_repr. by destruct (fill_byte o).
Qed.

Lemma format_file_outcome (file : file_arg) (w : world) :
  (∃ desc, format_file file w = Returned desc w)
  ∨ (∃ e, format_file file w = Raised e w ∧ ¬ is_AssertionError e).
Proof.
  unfold format_file. destruct file as [name|ref]; [left; eauto|].
  destruct (heap w !! ref) as [o|].
  - unfold FillBytes_repr. destruct (fill_byte o).
    + right. exists IndexError. split; [done|]. by intros [args H].
    + left. eauto.
  - right. exists ReferenceError. split; [done|]. by intros [args H].
Qed.

(** How a write frame can go: the source is read, its description is
    formatted and the device acknowledges every chunk, or an exception
    that is not an [AssertionError] ends the frame early. *)
Lemma write_file_cases (file : file_arg) (start_address : Z) (w : world) :
  (∃ raw w1 desc rest,
      read_source file w = Returned raw w1
      ∧ format_file file w1 = Returned desc w1
      ∧ rx (port w) = replicate 2 (Some x06)
                      ++ replicate (List.length (escape_file_contents raw))
                                   (Some x06)
                      ++ Some x06 :: rest)
  ∨ (∃ e w', write_file file start_address w = Raised e w'
             ∧ ¬ is_AssertionError e).
Proof.
  unfold write_file. unfold mbind at 1, M_bind at 1.
  destruct (acknowledged_write_cases (encode_ascii "w ") w)
    as [(rest1 & Hrx1 & ->)|(e & w1 & -> & He)]; [|right; eauto].
  unfold mbind at 1, M_bind at 1.
  match goal with |- context [acknowledged_write ?d ?w0] =>
    destruct (acknowledged_write_cases d w0)
      as [(rest2 & Hrx2 & ->)|(e & w1 & -> & He)]
  end; [|right; eauto].
  rewrite with_port_with_port. simpl in Hrx2.
  unfold mbind at 1, M_bind at 1. rewrite read_source_with_port_eq.
  destruct (read_source file w) as [raw w1|e w1|w1] eqn:Hsrc.
  2: { right. apply read_source_raises in Hsrc. eauto. }
  2: { exfalso. unfold read_source in Hsrc. destruct file as [name|ref].
       - by destruct (files w !! name).
       - by destruct (heap w !! ref). }
  unfold mbind at 1, M_bind at 1. rewrite format_file_with_port_eq.
  destruct (format_file_outcome file w1) as [[desc Hdesc]|(e & -> & He)];
    [rewrite Hdesc|right; eauto].
  unfold mbind at 1, M_bind at 1.
  match goal with |- context [for_each ?p ?f ?w0] =>
    destruct (for_each_cases p w0)
      as [(rest3 & Hrx3 & ->)|(e & w2 & -> & He)]
  end; [|right; eauto].
  rewrite with_port_with_port. simpl in Hrx3.
  unfold mbind at 1, M_bind at 1.
  match goal with |- context [acknowledged_write ?d ?w0] =>
    destruct (acknowledged_write_cases d w0)
      as [(rest4 & Hrx4 & ->)|(e & w2 & -> & He)]
  end; [|right; eauto].
  simpl in Hrx4. left. exists raw, w1, desc, rest4.
  repeat split; auto.
  rewrite Hrx1, Hrx2, Hrx3, Hrx4. reflexivity.
Qed.

(** An [AssertionError] leaves [write_file] only as the count mismatch at
    the end of a frame in which the device acknowledged every chunk: a
    send that is not acknowledged never shows up as a count mismatch. *)
Theorem write_file_assertion_after_full_frame (file : file_arg)
    (start_address : Z) (w w' : world) (args : list string) :
  write_file file start_address w = Raised (AssertionError args) w' →
  ∃ raw w1 rest bytes_written,
    read_source file w = Returned raw w1
    ∧ rx (port w) = replicate 2 (Some x06)
                    ++ replicate (List.length (escape_file_contents raw))
                                 (Some x06)
                    ++ Some x06 :: rest
    ∧ int_of_bytes (raw_readline rest).1 = Some bytes_written
    ∧ bytes_written ≠ len raw
    ∧ AssertionError args = WriteCountMismatch bytes_written (len raw).
Proof.
  intros Hrun.
  destruct (write_file_cases file start_address w)
    as [(raw & w1 & desc & rest & Hsrc & Hdesc & Hrx)|(e & w2 & He & Hna)].
  - rewrite (write_file_frame file start_address w w1 raw desc rest
               Hsrc Hdesc Hrx) in Hrun.
    cbv zeta in Hrun.
    destruct (int_of_bytes (raw_readline rest).1) as [n|] eqn:Hint; [|done].
    destruct (decide (n = len raw)) as [|Hne]; [done|].
    injection Hrun as Hargs _.
    exists raw, w1, rest, n. by rewrite <- Hargs.
  - rewrite He in Hrun. injection Hrun as -> _. destruct Hna. by eexists.
Qed.

(** [write_file] returns only when the source could be read, the device
    acknowledged the header, every wire byte and END, and the count it
    then reported is the length of the raw content. *)
Theorem write_file_returns_after_full_frame (file : file_arg)
    (start_address : Z) (w w' : world) :
  write_file file start_address w = Returned tt w' →
  ∃ raw w1 rest,
    read_source file w = Returned raw w1
    ∧ rx (port w) = replicate 2 (Some x06)
                    ++ replicate (List.length (escape_file_contents raw))
                                 (Some x06)
                    ++ Some x06 :: rest
    ∧ int_of_bytes (raw_readline rest).1 = Some (len raw)
    ∧ w' = with_port w1 (raw_readline rest).2
             (write_frame_events start_address raw (raw_readline rest).1).
Proof.
  intros Hrun.
  destruct (write_file_cases file start_address w)
    as [(raw & w1 & desc & rest & Hsrc & Hdesc & Hrx)|(e & w2 & He & Hna)].
  - rewrite (write_file_frame file start_address w w1 raw desc rest
               Hsrc Hdesc Hrx) in Hrun.
    cbv zeta in Hrun.
    destruct (int_of_bytes (raw_readline rest).1) as [n|] eqn:Hint; [|done].
    destruct (decide (n = len raw)) as [->|Hne]; [|done].
    injection Hrun as <-. by exists raw, w1, rest.
  - by rewrite He in Hrun.
Qed.

Lemma write_file_returns_after_full_frame_witness :
  ∃ raw w1 rest,
    read_source (Path "rom.bin")
      (mkWorld (mkSerial (replicate 6 (Some x06)
                          ++ map Some (encode_ascii "2") ++ [Some x0a]) [])
               {["rom.bin" := [x04; "A"%byte]]} [])
    = Returned raw w1
    ∧ replicate 6 (Some x06) ++ map Some (encode_ascii "2") ++ [Some x0a]
      = replicate 2 (Some x06)
        ++ replicate (List.length (escape_file_contents raw)) (Some x06)
        ++ Some x06 :: rest
    ∧ int_of_bytes (raw_readline rest).1 = Some (len raw)
    ∧ mkWorld (mkSerial []
                 (write_frame_events 16 [x04; "A"%byte]
                                     (encode_ascii "2" ++ [x0a])))
              {["rom.bin" := [x04; "A"%byte]]} []
      = with_port w1 (raw_readline rest).2
          (write_frame_events 16 raw (raw_readline rest).1).
Proof.
  apply (write_file_returns_after_full_frame (Path "rom.bin") 16
           (mkWorld (mkSerial (replicate 6 (Some x06)
                               ++ map Some (encode_ascii "2") ++ [Some x0a]) [])
                    {["rom.bin" := [x04; "A"%byte]]} [])).
  vm_compute. reflexivity.
Defined.

Lemma write_file_assertion_after_full_frame_witness :
  ∃ raw w1 rest bytes_written,
    read_source (Path "rom.bin")
      (mkWorld (mkSerial (replicate 6 (Some x06)
                          ++ map Some (encode_ascii "3") ++ [Some x0a]) [])
               {["rom.bin" := [x04; "A"%byte]]} [])
    = Returned raw w1
    ∧ replicate 6 (Some x06) ++ map Some (encode_ascii "3") ++ [Some x0a]
      = replicate 2 (Some x06)
        ++ replicate (List.length (escape_file_contents raw)) (Some x06)
        ++ Some x06 :: rest
    ∧ int_of_bytes (raw_readline rest).1 = Some bytes_written
    ∧ bytes_written ≠ len raw
    ∧ AssertionError ["written 3 bytes, expected 2"]
      = WriteCountMismatch bytes_written (len raw).
Proof.
  apply (write_file_assertion_after_full_frame (Path "rom.bin") 16
           (mkWorld (mkSerial (replicate 6 (Some x06)
                               ++ map Some (encode_ascii "3") ++ [Some x0a]) [])
                    {["rom.bin" := [x04; "A"%byte]]} [])
           (mkWorld (mkSerial []
                       (write_frame_events 16 [x04; "A"%byte]
                                           (encode_ascii "3" ++ [x0a])))
                    {["rom.bin" := [x04; "A"%byte]]} [])).
  vm_compute. reflexivity.
Defined.

(** A path that names no file: [verify_file] raises before anything goes
    over the port, while [write_file] raises only after the command token
    and the address have been sent and acknowledged, so the device is
    left inside a write frame. *)
Theorem missing_file_raises
    (context_diff : list string → list string → string → string → list string)
    (repr_str : string → string)
    (name : string) (start_address : Z) (w : world) :
  files w !! name = None →
  (∀ fuel,
      verify_file context_diff repr_str fuel (Path name) start_address w
      = Raised FileNotFoundError w) ∧
  (∀ rest, rx (port w) = Some x06 :: Some x06 :: rest →
     write_file (Path name) start_address w
     = Raised FileNotFoundError
         (with_port w rest
            (link_events (encode_ascii "w ") ack_char
             ++ link_events (encode_ascii (str_int start_address)) ack_char))).
Proof.
  intros Hfile. split.
  - intros fuel. unfold verify_file, mbind, M_bind, read_source.
    by rewrite Hfile.
  - intros rest Hrx. unfold write_file.
    unfold mbind at 1, M_bind at 1.
    rewrite (acknowledged_write_acked _ w _ Hrx).
    unfold mbind at 1, M_bind at 1.
    rewrite (acknowledged_write_acked _ _ rest) by done.
    unfold mbind at 1, M_bind at 1. unfold read_source. simpl.
    rewrite Hfile. unfold with_port. simpl. by rewrite <- app_assoc.
Qed.

Lemma missing_file_raises_witness :
  write_file (Path "rom.bin") 0 (idle_world [Some x06; Some x06; Some xff])
  = Raised FileNotFoundError
      (with_port (idle_world [Some x06; Some x06; Some xff]) [Some xff]
         (link_events (encode_ascii "w ") ack_char
          ++ link_events (encode_ascii (str_int 0)) ack_char)).
Proof.
  destruct (missing_file_raises (λ _ _ _ _, []) id "rom.bin" 0
              (idle_world [Some x06; Some x06; Some xff]) eq_refl)
    as [_ Hwrite].
  apply Hwrite. reflexivity.
Defined.

(** ** More on the read frame *)

Lemma read_contents_loop_skip_timeouts (k : nat) :
  ∀ (content : bytes) (w : world) (rest : list (option byte)) (extra : nat),
    rx (port w) = replicate k None ++ rest →
    read_contents_loop (k + extra) content w
    = read_contents_loop extra content
        (with_port w rest (replicate k (EvRead []))).
Proof.
  induction k as [|k IH]; intros content w rest extra Hrx.
  - simpl in *. rewrite <- Hrx. by rewrite with_port_nil.
  - cbn [Nat.add read_contents_loop]. unfold mbind, M_bind.
    rewrite read_contents_body_timeout by (by rewrite Hrx).
    rewrite Hrx. simpl raw_read. cbn [snd].
    rewrite (IH content _ rest extra) by done.
    by rewrite with_port_with_port.
Qed.

(** Reads that time out between the bytes of the data change nothing:
    whatever the number of timeouts in front of each (escaped) byte, the
    loop accumulates exactly the raw bytes, using one iteration per
    timeout and one per raw byte. *)
Theorem read_loop_ignores_timeouts (items : list (nat * byte)) :
  ∀ (content : bytes) (w : world) (rest : list (option byte)) (extra : nat),
    rx (port w) = wire_with_timeouts items ++ rest →
    ∃ evs,
      read_contents_loop (iterations items + extra) content w
      = read_contents_loop extra (content ++ map snd items)
          (with_port w rest evs)
      ∧ writes evs = [].
Proof.
  induction items as [|[k b] items IH]; intros content w rest extra Hrx.
  - exists []. simpl in *. rewrite app_nil_r, <- Hrx.
    by rewrite with_port_nil.
  - unfold wire_with_timeouts in Hrx. cbn [mbind list_bind] in Hrx.
    fold (wire_with_timeouts items) in Hrx.
    rewrite <- !app_assoc in Hrx. simpl fst in Hrx. simpl snd in Hrx.
    unfold iterations. cbn [map sum_list fst]. fold (iterations items).
    unfold id. cbn [snd].
    replace (S k + iterations items + extra)%nat
      with (k + (1 + (iterations items + extra)))%nat by lia.
    rewrite (read_contents_loop_skip_timeouts k content w _ _ Hrx).
    rewrite <- (escape_file_contents_nil) in Hrx.
    pose proof (read_contents_loop_consume [b] content
                  (with_port w (map Some (escape_byte [b])
                                ++ wire_with_timeouts items ++ rest)
                             (replicate k (EvRead [])))
                  (wire_with_timeouts items ++ rest)
                  (iterations items + extra)) as Hbyte.
    rewrite escape_file_contents_cons, escape_file_contents_nil, app_nil_r
      in Hbyte.
    simpl List.length in Hbyte. rewrite Hbyte by done.
    rewrite with_port_with_port.
    destruct (IH (content ++ [b])
                 (with_port w (wire_with_timeouts items ++ rest)
                    (replicate k (EvRead [])
                     ++ map (λ b0, EvRead [b0]) (escape_byte [b])))
                 rest extra eq_refl) as (evs & -> & Hq).
    eexists. rewrite with_port_with_port, <- app_assoc. split; [done|].
    rewrite !writes_app, Hq.
    assert (writes (replicate k (EvRead [])) = []) as ->
      by (clear; by induction k).
    assert (∀ l : bytes, writes (map (λ b0, EvRead [b0]) l) = []) as ->
      by (clear; intros l; by induction l).
    done.
Qed.

Lemma read_loop_ignores_timeouts_witness :
  ∃ evs,
    read_contents_loop (iterations [(2%nat, x04); (0%nat, "A"%byte)] + 1)
      []
      (idle_world [None; None; Some x1b; Some x04; Some "A"%byte; Some x04])
    = read_contents_loop 1 ([] ++ map snd [(2%nat, x04); (0%nat, "A"%byte)])
        (with_port
           (idle_world [None; None; Some x1b; Some x04; Some "A"%byte; Some x04])
           [Some x04] evs)
    ∧ writes evs = [].
Proof.
  apply (read_loop_ignores_timeouts [(2%nat, x04); (0%nat, "A"%byte)] []
           (idle_world [None; None; Some x1b; Some x04; Some "A"%byte; Some x04])
           [Some x04] 1%nat).
  reflexivity.
Defined.

(** After an acknowledged header and any escaped data, ESCAPE followed by
    a byte that is neither END nor ESCAPE (or by a timeout) makes
    [read_contents] raise "Invalid escape sequence received": the bytes
    accumulated so far are not returned. *)
Theorem read_contents_invalid_escape (raw : bytes) (start_address length : Z)
    (w : world) (rest : list (option byte)) (extra : nat) :
  rx (port w) = replicate 3 (Some x06)
                ++ map Some (escape_file_contents raw) ++ Some x1b :: rest →
  (raw_read rest).1 ∉ [end_char; esc_char] →
  read_contents (List.length raw + S extra) start_address length w
  = Raised InvalidEscape
      (with_port w (raw_read rest).2
         (read_header_events start_address length
          ++ map (λ b, EvRead [b]) (escape_file_contents raw)
          ++ [EvRead [x1b]; EvRead (raw_read rest).1])).
Proof.
  intros Hrx Hbad.
  rewrite (read_contents_header _ _ _ w _ Hrx).
  rewrite (read_contents_loop_consume raw [] _ (Some x1b :: rest) (S extra))
    by done.
  rewrite with_port_with_port.
  cbn [read_contents_loop]. unfold mbind, M_bind.
  rewrite (read_contents_body_invalid _ _ rest) by done.
  rewrite with_port_with_port. by rewrite <- app_assoc.
Qed.

Lemma read_contents_invalid_escape_witness :
  read_contents 2 0 2
    (idle_world (replicate 3 (Some x06)
                 ++ map Some (escape_file_contents ["A"%byte])
                 ++ Some x1b :: [Some "B"%byte; Some x04]))
  = Raised InvalidEscape
      (with_port
         (idle_world (replicate 3 (Some x06)
                      ++ map Some (escape_file_contents ["A"%byte])
                      ++ Some x1b :: [Some "B"%byte; Some x04]))
         [Some x04]
         (read_header_events 0 2
          ++ map (λ b, EvRead [b]) (escape_file_contents ["A"%byte])
          ++ [EvRead [x1b]; EvRead ["B"%byte]])).
Proof.
  apply (read_contents_invalid_escape ["A"%byte] 0 2 _
           [Some "B"%byte; Some x04] 0%nat).
  - reflexivity.
  - simpl. rewrite control_char_inv. by intros [H|H].
Defined.

(** ** The file system *)

Lemma keeps_files_bind {A B} (c : M A) (k : A → M B) :
  keeps_files c → (∀ a, keeps_files (k a)) → keeps_files (c ≫= k).
Proof.
  intros Hc Hk w. unfold mbind, M_bind. specialize (Hc w).
  destruct (c w) as [a w1|e w1|w1]; simpl in Hc; [|done..].
  by rewrite Hk.
Qed.

Lemma keeps_files_mret {A} (a : A) : keeps_files (mret a).
Proof. done. Qed.

Lemma keeps_files_raise {A} (e : exn) : keeps_files (raise (A := A) e).
Proof. done. Qed.

Lemma keeps_files_from_option {A} (e : exn) (o : option A) :
  keeps_files (from_option e o).
Proof. by destruct o. Qed.

Lemma keeps_files_port_read : keeps_files port_read.
Proof.
  intros w. unfold port_read, serial_read.
  by destruct (raw_read (rx (port w))).
Qed.

Lemma keeps_files_port_readline : keeps_files port_readline.
Proof.
  intros w. unfold port_readline, serial_readline.
  by destruct (raw_readline (rx (port w))).
Qed.

Lemma keeps_files_read_source (file : file_arg) : keeps_files (read_source file).
Proof.
  intros w. unfold read_source. destruct file as [name|ref].
  - by destruct (files w !! name).
  - by destruct (heap w !! ref).
Qed.

Lemma keeps_files_format_file (file : file_arg) : keeps_files (format_file file).
Proof.
  intros w. unfold format_file. destruct file as [name|ref]; [done|].
  destruct (heap w !! ref) as [o|]; [|done].
  unfold FillBytes_repr. by destruct (fill_byte o).
Qed.

Lemma keeps_files_repr_file (repr_str : string → string) (file : file_arg) :
  keeps_files (repr_file repr_str file).
Proof.
  intros w. unfold repr_file. destruct file as [name|ref]; [done|].
  destruct (heap w !! ref) as [o|]; [|done].
  unfold FillBytes_repr. by destruct (fill_byte o).
Qed.

Lemma keeps_files_acknowledged_write (data : bytes) :
  keeps_files (acknowledged_write data).
Proof.
  intros w.
  destruct (acknowledged_write_cases data w) as [(rest & _ & ->)|_]; [done|].
  destruct (decide ((raw_read (rx (port w))).1 = ack_char)) as [Hack|Hne].
  - destruct (rx (port w)) as [|[b|] rest] eqn:Hrx; simpl in Hack; try done.
    inversion Hack; subst.
    by rewrite (acknowledged_write_acked data w rest Hrx).
  - by destruct (acknowledged_write_failed data w Hne)
      as (e & rest & lines & -> & _).
Qed.

Lemma keeps_files_for_each (payload : bytes) :
  keeps_files (for_each payload (λ byte, acknowledged_write [byte])).
Proof.
  induction payload as [|b payload IH]; [done|].
  cbn [for_each]. apply keeps_files_bind; [|done].
  apply keeps_files_acknowledged_write.
Qed.

Lemma keeps_files_write_file (file : file_arg) (start_address : Z) :
  keeps_files (write_file file start_address).
Proof.
  unfold write_file.
  apply keeps_files_bind; [apply keeps_files_acknowledged_write|]. intros _.
  apply keeps_files_bind; [apply keeps_files_acknowledged_write|]. intros _.
  apply keeps_files_bind; [apply keeps_files_read_source|]. intros raw.
  apply keeps_files_bind; [apply keeps_files_format_file|]. intros _.
  apply keeps_files_bind; [apply keeps_files_for_each|]. intros _.
  apply keeps_files_bind; [apply keeps_files_acknowledged_write|]. intros _.
  apply keeps_files_bind; [apply keeps_files_port_readline|]. intros response.
  apply keeps_files_bind; [apply keeps_files_from_option|]. intros n.
  by destruct (decide _).
Qed.

Lemma keeps_files_read_contents_body (content : bytes) :
  keeps_files (read_contents_body content).
Proof.
  unfold read_contents_body.
  apply keeps_files_bind; [apply keeps_files_port_read|]. intros char.
  destruct (decide (char = end_char)).
  - apply keeps_files_bind; [apply keeps_files_port_readline|]. intros r.
    apply keeps_files_bind; [apply keeps_files_from_option|]. intros n.
    by destruct (decide _).
  - apply keeps_files_bind; [|done].
    destruct (decide (char = esc_char)); [|done].
    apply keeps_files_bind; [apply keeps_files_port_read|]. intros char'.
    by destruct (decide _).
Qed.

Lemma keeps_files_read_contents (fuel : nat) (start_address length : Z) :
  keeps_files (read_contents fuel start_address length).
Proof.
  unfold read_contents.
  apply keeps_files_bind; [apply keeps_files_acknowledged_write|]. intros _.
  apply keeps_files_bind; [apply keeps_files_acknowledged_write|]. intros _.
  apply keeps_files_bind; [apply keeps_files_acknowledged_write|]. intros _.
  generalize (@nil byte). induction fuel as [|fuel IH]; intros content; [done|].
  cbn [read_contents_loop].
  apply keeps_files_bind; [apply keeps_files_read_contents_body|].
  intros [content'|result]; [apply IH|done].
Qed.

Lemma keeps_files_verify_file
    (context_diff : list string → list string → string → string → list string)
    (repr_str : string → string) (fuel : nat) (file : file_arg)
    (start_address : Z) :
  keeps_files (verify_file context_diff repr_str fuel file start_address).
Proof.
  unfold verify_file.
  apply keeps_files_bind; [apply keeps_files_read_source|]. intros raw.
  apply keeps_files_bind; [apply keeps_files_read_contents|]. intros eeprom.
  destruct (decide _); [|done].
  apply keeps_files_bind; [apply keeps_files_repr_file|]. done.
Qed.

(** Only [read_file] writes to the file system: whatever the device does
    and however they end, [write_file], [read_contents], [fill],
    [verify_file] and [check_filled] leave every file as it was. *)
Theorem operations_keep_files
    (context_diff : list string → list string → string → string → list string)
    (repr_str : string → string) (fuel : nat) (file : file_arg)
    (fill_byte : bytes) (length start_address : Z) (w : world) :
  files (final_world (write_file file start_address w)) = files w
  ∧ files (final_world (read_contents fuel start_address length w)) = files w
  ∧ files (final_world (fill fill_byte length start_address w)) = files w
  ∧ files (final_world
             (verify_file context_diff repr_str fuel file start_address w))
    = files w
  ∧ files (final_world
             (check_filled context_diff repr_str fuel fill_byte length
                           start_address w))
    = files w.
Proof.
  split; [apply keeps_files_write_file|].
  split; [apply keeps_files_read_contents|].
  split.
  { unfold fill, new_FillBytes, mbind, M_bind.
    by rewrite keeps_files_write_file. }
  split; [apply keeps_files_verify_file|].
  unfold check_filled, new_FillBytes, try_except_AssertionError.
  unfold mbind at 1, M_bind at 1.
  match goal with |- context [verify_file ?d ?r ?f ?o ?s ?w0] =>
    pose proof (keeps_files_verify_file d r f o s w0) as Hv;
    destruct (verify_file d r f o s w0) as [[] w1|e w1|w1]
  end; simpl in Hv; try done.
  destruct e; try done.
Qed.



(** The empty file name cannot be opened: [read_file] reads the whole
    frame and then raises what [open] raises. *)
Example read_file_empty_name :
  read_file (λ name, if decide (name = "") then Some FileNotFoundError
                     else None)
            2 "" 1 0
    (idle_world (replicate 3 (Some x06) ++ map Some ["A"%byte]
                 ++ Some x04 :: map Some (encode_ascii "1") ++ [Some x0a]))
  = Raised FileNotFoundError
      (mkWorld (mkSerial []
                  (read_frame_events 0 1 ["A"%byte]
                                     (encode_ascii "1" ++ [x0a])))
               ∅ []).
Proof. vm_compute. reflexivity. Qed.

(** ** Verifying and filling *)

Lemma repr_file_no_return_change (repr_str : string → string)
    (file : file_arg) (w : world) :
  (∃ name, repr_file repr_str file w = Returned name w)
  ∨ (∃ e, repr_file repr_str file w = Raised e w).
Proof.
  unfold repr_file. destruct file as [name|ref]; [left; eauto|].
  destruct (heap w !! ref) as [o|]; [|right; eauto].
  unfold FillBytes_repr. destruct (fill_byte o); [right|left]; eauto.
Qed.

(** [verify_file] on a device that acknowledges the header, sends the
    wire image of [eeprom], END and the right count. *)
Lemma verify_file_frame
    (context_diff : list string → list string → string → string → list string)
    (repr_str : string → string) (file : file_arg) (start_address : Z)
    (w w1 : world) (raw eeprom : bytes) (rest : list (option byte))
    (extra : nat) :
  read_source file w = Returned raw w1 →
  rx (port w) = replicate 3 (Some x06)
                ++ map Some (escape_file_contents eeprom)
                ++ Some x04 :: rest →
  int_of_bytes (raw_readline rest).1
  = Some (len (escape_file_contents eeprom)) →
  let w' := with_port w1 (raw_readline rest).2
              (read_frame_events start_address (len raw) eeprom
                                 (raw_readline rest).1) in
  verify_file context_diff repr_str (List.length eeprom + S extra) file
              start_address w
  = if decide (raw = eeprom) then Returned tt w'
    else (fromfile ← repr_file repr_str file ;
          raise (AssertionError
                   ["Contents do not match input file";
                    join_lines (context_diff (format_hex raw)
                                             (format_hex eeprom)
                                             fromfile "EEPROM Contents")])) w'.
Proof.
  intros Hsrc Hrx Hcount w'. unfold verify_file.
  unfold mbind at 1, M_bind at 1. rewrite Hsrc.
  unfold mbind at 1, M_bind at 1.
  pose proof (read_source_port file w w1 raw Hsrc) as Hport.
  rewrite (read_contents_frame eeprom _ _ w1 rest extra)
    by (by rewrite Hport).
  cbv zeta. rewrite Hcount.
  destruct (decide (len (escape_file_contents eeprom)
                    = len (escape_file_contents eeprom))); [|done].
  fold w'.
  destruct (decide (raw ≠ eeprom)); destruct (decide (raw = eeprom)); done.
Qed.

(** With the data read back intact, [verify_file] returns exactly when
    the bytes of the EEPROM equal the bytes of the source; for a source
    named by a path, different bytes raise the [AssertionError] "Contents
    do not match input file" with the diff of the two hexadecimal
    listings. The number of bytes asked for is the length of the source,
    whatever the device then sends. *)
Theorem verify_file_compares
    (context_diff : list string → list string → string → string → list string)
    (repr_str : string → string) (file : file_arg) (start_address : Z)
    (w w1 : world) (raw eeprom : bytes) (rest : list (option byte))
    (extra : nat) :
  read_source file w = Returned raw w1 →
  rx (port w) = replicate 3 (Some x06)
                ++ map Some (escape_file_contents eeprom)
                ++ Some x04 :: rest →
  int_of_bytes (raw_readline rest).1
  = Some (len (escape_file_contents eeprom)) →
  let w' := with_port w1 (raw_readline rest).2
              (read_frame_events start_address (len raw) eeprom
                                 (raw_readline rest).1) in
  (verify_file context_diff repr_str (List.length eeprom + S extra) file
               start_address w = Returned tt w'
   ↔ eeprom = raw) ∧
  (∀ name, file = Path name → eeprom ≠ raw →
     verify_file context_diff repr_str (List.length eeprom + S extra) file
                 start_address w
     = Raised (AssertionError
                 ["Contents do not match input file";
                  join_lines (context_diff (format_hex raw) (format_hex eeprom)
                                           (repr_str name) "EEPROM Contents")])
              w').
Proof.
  intros Hsrc Hrx Hcount w'.
  rewrite (verify_file_frame context_diff repr_str file start_address w w1
             raw eeprom rest extra Hsrc Hrx Hcount).
  fold w'. destruct (decide (raw = eeprom)) as [->|Hne].
  - split; [done|]. intros name _ Hne. done.
  - split.
    + split; [|intros ->; done].
      unfold mbind, M_bind.
      by destruct (repr_file_no_return_change repr_str file w')
        as [[name ->]|[e ->]].
    + intros name -> _. reflexivity.
Qed.

Lemma verify_file_compares_witness :
  verify_file (λ _ _ _ _, []) id 2 (Path "rom.bin") 0
    (mkWorld (mkSerial (replicate 3 (Some x06)
                        ++ map Some (escape_file_contents ["B"%byte])
                        ++ Some x04 :: map Some (encode_ascii "1")
                        ++ [Some x0a]) [])
             {["rom.bin" := ["A"%byte]]} [])
  = Raised (AssertionError
              ["Contents do not match input file";
               join_lines ((λ _ _ _ _, []) (format_hex ["A"%byte])
                             (format_hex ["B"%byte]) (id "rom.bin")
                             "EEPROM Contents")])
      (with_port
         (mkWorld (mkSerial (replicate 3 (Some x06)
                             ++ map Some (escape_file_contents ["B"%byte])
                             ++ Some x04 :: map Some (encode_ascii "1")
                             ++ [Some x0a]) [])
                  {["rom.bin" := ["A"%byte]]} [])
         (raw_readline (map Some (encode_ascii "1") ++ [Some x0a])).2
         (read_frame_events 0 (len ["A"%byte]) ["B"%byte]
            (raw_readline (map Some (encode_ascii "1") ++ [Some x0a])).1)).
Proof.
  pose proof (verify_file_compares (λ _ _ _ _, []) id (Path "rom.bin") 0
                (mkWorld (mkSerial (replicate 3 (Some x06)
                                    ++ map Some (escape_file_contents ["B"%byte])
                                    ++ Some x04 :: map Some (encode_ascii "1")
                                    ++ [Some x0a]) [])
                         {["rom.bin" := ["A"%byte]]} [])
                _ ["A"%byte] ["B"%byte]
                (map Some (encode_ascii "1") ++ [Some x0a]) 0%nat
                eq_refl eq_refl eq_refl) as [_ Hdiff].
  apply (Hdiff "rom.bin"); [reflexivity|discriminate].
Defined.

Lemma bytes_mul_single (b : byte) (n : nat) :
  bytes_mul [b] (Z.of_nat n) = replicate n b.
Proof.
  unfold bytes_mul. rewrite Nat2Z.id.
  induction n as [|n IH]; [reflexivity|]. simpl. by rewrite IH.
Qed.

(** [check_filled] with a fill byte [b] on a region of [n] bytes that all
    equal [b] (read back intact) returns; it has asked the device for [n]
    bytes and leaves after the count line. *)
Theorem check_filled_filled
    (context_diff : list string → list string → string → string → list string)
    (repr_str : string → string) (b : byte) (n : nat) (start_address : Z)
    (w : world) (rest : list (option byte)) (extra : nat) :
  rx (port w) = replicate 3 (Some x06)
                ++ map Some (escape_file_contents (replicate n b))
                ++ Some x04 :: rest →
  int_of_bytes (raw_readline rest).1
  = Some (len (escape_file_contents (replicate n b))) →
  ∃ w',
    check_filled context_diff repr_str (n + S extra) [b] (Z.of_nat n)
                 start_address w
    = Returned tt w'
    ∧ rx (port w') = (raw_readline rest).2
    ∧ log (port w')
      = log (port w)
        ++ read_frame_events start_address (Z.of_nat n) (replicate n b)
                             (raw_readline rest).1.
Proof.
  intros Hrx Hcount.
  unfold check_filled, new_FillBytes, try_except_AssertionError.
  unfold mbind at 1, M_bind at 1.
  pose proof (read_source_fresh [b] (Z.of_nat n) w) as Hsrc.
  rewrite bytes_mul_single in *.
  replace (n + S extra)%nat
    with (List.length (replicate n b) + S extra)%nat
    by (by rewrite length_replicate).
  erewrite (verify_file_frame context_diff repr_str _ start_address _ _
              (replicate n b) (replicate n b) rest extra Hsrc);
    [|exact Hrx|exact Hcount].
  destruct (decide (replicate n b = replicate n b)); [|done].
  eexists. split; [reflexivity|]. simpl. split; [done|].
  unfold len. by rewrite length_replicate.
Qed.

Lemma check_filled_filled_witness :
  ∃ w',
    check_filled (λ _ _ _ _, []) id (2 + 1) [x04] (Z.of_nat 2) 0
      (idle_world (replicate 3 (Some x06)
                   ++ map Some (escape_file_contents (replicate 2 x04))
                   ++ Some x04 :: map Some (encode_ascii "4") ++ [Some x0a]))
    = Returned tt w'
    ∧ rx (port w')
      = (raw_readline (map Some (encode_ascii "4") ++ [Some x0a])).2
    ∧ log (port w')
      = log (port (idle_world
                     (replicate 3 (Some x06)
                      ++ map Some (escape_file_contents (replicate 2 x04))
                      ++ Some x04 :: map Some (encode_ascii "4")
                      ++ [Some x0a])))
        ++ read_frame_events 0 (Z.of_nat 2) (replicate 2 x04)
             (raw_readline (map Some (encode_ascii "4") ++ [Some x0a])).1.
Proof.
  apply (check_filled_filled (λ _ _ _ _, []) id x04 2 0 _
           (map Some (encode_ascii "4") ++ [Some x0a]) 0%nat);
    reflexivity.
Defined.

(** [fill] with a fill byte [b] and [n] repetitions sends the write frame
    of [n] copies of [b] (each copy as two wire bytes when [b] is END or
    ESCAPE) and expects the device to report [n]: it returns when the
    count line says [n] and raises the count mismatch otherwise. *)
Theorem fill_frame (b : byte) (n : nat) (start_address : Z) (w : world)
    (rest : list (option byte)) (bytes_written : Z) :
  rx (port w) = replicate 2 (Some x06)
                ++ replicate
                     (List.length (escape_file_contents (replicate n b)))
                     (Some x06)
                ++ Some x06 :: rest →
  int_of_bytes (raw_readline rest).1 = Some bytes_written →
  ∃ w',
    log (port w')
    = log (port w)
      ++ write_frame_events start_address (replicate n b) (raw_readline rest).1
    ∧ rx (port w') = (raw_readline rest).2
    ∧ (bytes_written = Z.of_nat n →
       fill [b] (Z.of_nat n) start_address w = Returned tt w')
    ∧ (bytes_written ≠ Z.of_nat n →
       fill [b] (Z.of_nat n) start_address w
       = Raised (WriteCountMismatch bytes_written (Z.of_nat n)) w').
Proof.
  intros Hrx Hcount. unfold fill, new_FillBytes, mbind, M_bind.
  pose proof (read_source_fresh [b] (Z.of_nat n) w) as Hsrc.
  rewrite bytes_mul_single in *.
  erewrite (write_file_frame _ start_address _ _ (replicate n b)
              ("fill bytes (0x" +:+ format_X 2 (Byte.to_N b) +:+ ")") rest
              Hsrc); [| |exact Hrx].
  - cbv zeta. rewrite Hcount. unfold len. rewrite length_replicate.
    eexists. split; [|split; [|split]]; [| |intros ->|intros Hne].
    3: { destruct (decide (Z.of_nat n = Z.of_nat n)); [reflexivity|done]. }
    3: { destruct (decide (bytes_written = Z.of_nat n)); [done|reflexivity]. }
    all: done.
  - unfold format_file. simpl. rewrite list_lookup_middle by done.
    reflexivity.
Qed.

Lemma fill_frame_witness :
  ∃ w',
    log (port w')
    = log (port (idle_world (replicate 2 (Some x06)
                             ++ replicate 4 (Some x06)
                             ++ Some x06 :: map Some (encode_ascii "2")
                             ++ [Some x0a])))
      ++ write_frame_events 0 (replicate 2 x1b)
           (raw_readline (map Some (encode_ascii "2") ++ [Some x0a])).1
    ∧ rx (port w')
      = (raw_readline (map Some (encode_ascii "2") ++ [Some x0a])).2
    ∧ (2 = Z.of_nat 2 →
       fill [x1b] (Z.of_nat 2) 0
         (idle_world (replicate 2 (Some x06) ++ replicate 4 (Some x06)
                      ++ Some x06 :: map Some (encode_ascii "2")
                      ++ [Some x0a]))
       = Returned tt w')
    ∧ (2 ≠ Z.of_nat 2 →
       fill [x1b] (Z.of_nat 2) 0
         (idle_world (replicate 2 (Some x06) ++ replicate 4 (Some x06)
                      ++ Some x06 :: map Some (encode_ascii "2")
                      ++ [Some x0a]))
       = Raised (WriteCountMismatch 2 (Z.of_nat 2)) w').
Proof.
  apply (fill_frame x1b 2 0
           (idle_world (replicate 2 (Some x06) ++ replicate 4 (Some x06)
                        ++ Some x06 :: map Some (encode_ascii "2")
                        ++ [Some x0a]))
           (map Some (encode_ascii "2") ++ [Some x0a]) 2);
    reflexivity.
Defined.

(** ** Operations one after the other *)

Lemma raw_readline_line (line : bytes) (rest : list (option byte)) :
  newline ∉ line →
  raw_readline (map Some line ++ Some newline :: rest)
  = (line ++ [newline], rest).
Proof.
  induction line as [|b line IH]; intros Hnl; simpl.
  - by destruct (decide (newline = newline)).
  - destruct (decide (b = newline)) as [->|_].
    + exfalso. apply Hnl, list_elem_of_here.
    + rewrite IH; [done|]. intros Hin. by apply Hnl, list_elem_of_further.
Qed.

(** A write frame takes from the port exactly its acknowledgements and
    its count line up to the newline, so a verification can follow at
    once: when the device acknowledges the write, reports the right
    count, and then answers the read with the same bytes, writing a file
    and verifying it returns, and the file system is as before. *)
Theorem write_then_verify
    (context_diff : list string → list string → string → string → list string)
    (repr_str : string → string) (name : string) (start_address : Z)
    (w : world) (raw count_line : bytes) (rest : list (option byte))
    (extra : nat) :
  files w !! name = Some raw →
  newline ∉ count_line →
  int_of_bytes (count_line ++ [newline]) = Some (len raw) →
  rx (port w)
  = replicate 2 (Some x06)
    ++ replicate (List.length (escape_file_contents raw)) (Some x06)
    ++ Some x06 :: map Some count_line ++ Some newline
    :: replicate 3 (Some x06)
    ++ map Some (escape_file_contents raw) ++ Some x04 :: rest →
  int_of_bytes (raw_readline rest).1 = Some (len (escape_file_contents raw)) →
  ∃ w',
    (write_file (Path name) start_address ;;
     verify_file context_diff repr_str (List.length raw + S extra)
                 (Path name) start_address) w
    = Returned tt w'
    ∧ rx (port w') = (raw_readline rest).2
    ∧ files w' = files w.
Proof.
  intros Hfile Hnl Hcount1 Hrx Hcount2.
  unfold mbind at 1, M_bind at 1.
  rewrite (write_file_frame (Path name) start_address w w raw name _
             (read_source_path name raw w Hfile) eq_refl Hrx).
  cbv zeta. rewrite (raw_readline_line count_line _ Hnl). cbn [fst snd].
  rewrite Hcount1.
  destruct (decide (len raw = len raw)); [|done].
  match goal with |- context [verify_file _ _ _ _ _ ?w1] =>
    rewrite (verify_file_frame context_diff repr_str (Path name)
               start_address w1 w1 raw raw rest extra)
  end; [| by apply read_source_path | reflexivity | exact Hcount2].
  destruct (decide (raw = raw)); [|done].
  eexists. split; [reflexivity|]. done.
Qed.

Lemma write_then_verify_witness :
  ∃ w',
    (write_file (Path "rom.bin") 0 ;;
     verify_file (λ _ _ _ _, []) id (List.length [x04] + 1)
                 (Path "rom.bin") 0)
      (mkWorld (mkSerial (replicate 2 (Some x06)
                          ++ replicate
                               (List.length (escape_file_contents [x04]))
                               (Some x06)
                          ++ Some x06 :: map Some (encode_ascii "1")
                          ++ Some newline
                          :: replicate 3 (Some x06)
                          ++ map Some (escape_file_contents [x04])
                          ++ Some x04 :: map Some (encode_ascii "2")
                          ++ [Some x0a]) [])
               {["rom.bin" := [x04]]} [])
    = Returned tt w'
    ∧ rx (port w')
      = (raw_readline (map Some (encode_ascii "2") ++ [Some x0a])).2
    ∧ files w' = {["rom.bin" := [x04]]}.
Proof.
  assert (newline ∉ encode_ascii "1") as Hnl.
  { rewrite list_elem_of_In. simpl. intros [H|[]]. discriminate H. }
  exact (write_then_verify (λ _ _ _ _, []) id "rom.bin" 0
           (mkWorld (mkSerial (replicate 2 (Some x06)
                               ++ replicate
                                    (List.length (escape_file_contents [x04]))
                                    (Some x06)
                               ++ Some x06 :: map Some (encode_ascii "1")
                               ++ Some newline
                               :: replicate 3 (Some x06)
                               ++ map Some (escape_file_contents [x04])
                               ++ Some x04 :: map Some (encode_ascii "2")
                               ++ [Some x0a]) [])
                    {["rom.bin" := [x04]]} [])
           [x04] (encode_ascii "1")
           (map Some (encode_ascii "2") ++ [Some x0a]) 0%nat
           eq_refl Hnl eq_refl eq_refl eq_refl).
Defined.

(** ** More on [format_hex] *)

Lemma hex_rows_from_app (xs ys : bytes) (k p : nat) :
  List.length xs = (8 * p)%nat →
  hex_rows_from k (xs ++ ys) = hex_rows_from k xs ++ hex_rows_from (k + p) ys.
Proof.
  intros Hlen. unfold hex_rows_from.
  assert ((List.length (xs ++ ys) + 7) / 8
          = p + (List.length ys + 7) / 8)%nat as ->.
  { rewrite length_app, Hlen.
    replace (8 * p + List.length ys + 7)%nat
      with ((List.length ys + 7) + p * 8)%nat by lia.
    rewrite Nat.div_add by lia. lia. }
  assert ((List.length xs + 7) / 8 = p)%nat as ->.
  { rewrite Hlen. symmetry. apply (Nat.div_unique _ 8 p 7); lia. }
  rewrite seq_app, map_app. f_equal.
  - apply map_ext_in. intros m Hm. apply in_seq in Hm. f_equal.
    rewrite drop_app_le by lia.
    rewrite take_app_le; [done|]. rewrite length_drop. lia.
  - replace (seq (0 + p) ((List.length ys + 7) / 8))
      with (Nat.add p <$> seq 0 ((List.length ys + 7) / 8))
      by (rewrite fmap_add_seq; f_equal; lia).
    rewrite <- list_fmap_compose. apply map_ext. intros m. simpl.
    f_equal; [f_equal; lia|].
    rewrite drop_app_ge by lia. f_equal. f_equal. lia.
Qed.

Lemma format_hex_listing (in_bytes : bytes) :
  format_hex in_bytes = "" :: hex_rows in_bytes.
Proof.
  unfold format_hex, hex_rows.
  change 0 with (8 * Z.of_nat 0).
  rewrite (format_hex_loop_rows (List.length in_bytes)) by lia.
  apply split_lines_rows_text.
  unfold hex_rows_from. apply Forall_forall. intros row Hin.
  apply list_elem_of_In, in_map_iff in Hin as (m & <- & _).
  apply no_newline_hex_row.
Qed.

(** The listing is local: when [xs] is a whole number of rows (its length
    is a multiple of 8), the listing of [xs ++ ys] starts with the listing
    of [xs] unchanged, and goes on with the rows of [ys] at the addresses
    that follow. *)
Theorem format_hex_app (xs ys : bytes) (p : nat) :
  List.length xs = (8 * p)%nat →
  format_hex (xs ++ ys) = format_hex xs ++ hex_rows_from p ys.
Proof.
  intros Hlen. rewrite !format_hex_listing.
  unfold hex_rows. by rewrite (hex_rows_from_app xs ys 0 p Hlen).
Qed.

Lemma format_hex_app_witness :
  format_hex (encode_ascii "01234567" ++ encode_ascii "89")
  = format_hex (encode_ascii "01234567") ++ hex_rows_from 1 (encode_ascii "89").
Proof.
  apply (format_hex_app (encode_ascii "01234567") (encode_ascii "89") 1).
  reflexivity.
Defined.

(** ** What a read that returns has seen *)

Lemma wire_with_timeouts_cons (k : nat) (b : byte) (items : list (nat * byte)) :
  wire_with_timeouts ((k, b) :: items)
  = replicate k None ++ map Some (escape_byte [b]) ++ wire_with_timeouts items.
Proof.
  unfold wire_with_timeouts. cbn [mbind list_bind]. simpl fst. simpl snd.
  by rewrite <- app_assoc.
Qed.

(** One more timeout in front of data that ends with END. *)
Lemma wire_with_timeouts_delay (items : list (nat * byte)) (k : nat)
    (rest : list (option byte)) :
  ∃ items' k',
    None :: wire_with_timeouts items ++ replicate k None ++ Some x04 :: rest
    = wire_with_timeouts items' ++ replicate k' None ++ Some x04 :: rest
    ∧ map snd items' = map snd items.
Proof.
  destruct items as [|[k0 b] items].
  - exists [], (S k). done.
  - exists ((S k0, b) :: items), k. split; [|done].
    by rewrite !wire_with_timeouts_cons.
Qed.

Lemma read_contents_loop_sound (fuel : nat) :
  ∀ (content : bytes) (w w' : world) (result : bytes),
    read_contents_loop fuel content w = Returned result w' →
    ∃ items k rest,
      rx (port w) = wire_with_timeouts items ++ replicate k None
                    ++ Some x04 :: rest
      ∧ result = content ++ map snd items
      ∧ int_of_bytes (raw_readline rest).1
        = Some (len (escape_file_contents result))
      ∧ rx (port w') = (raw_readline rest).2.
Proof.
  induction fuel as [|fuel IH]; intros content w w' result; [done|].
  cbn [read_contents_loop]. unfold mbind, M_bind.
  destruct (rx (port w)) as [|[b|] rest0] eqn:Hrx.
  - rewrite read_contents_body_timeout by (by rewrite Hrx).
    rewrite Hrx. simpl. intros Hloop.
    apply IH in Hloop as (items & k & rest & Hbad & _). simpl in Hbad.
    destruct items as [|[k0 b0] items]; [by destruct k|].
    rewrite wire_with_timeouts_cons in Hbad.
    destruct k0; [|done].
    by destruct (escape_byte_cases b0) as [[Heq _]|[Heq _]];
      rewrite Heq in Hbad.
  - destruct (decide (b = x04)) as [->|Hend].
    { rewrite (read_contents_body_end content w rest0 Hrx).
      unfold end_of_frame.
      destruct (int_of_bytes (raw_readline rest0).1) as [n|] eqn:Hint;
        [|done].
      destruct (decide (n = len (escape_file_contents content))) as [->|];
        [|done].
      intros [= <- <-]. exists [], 0%nat, rest0. simpl.
      by rewrite app_nil_r. }
    destruct (decide (b = x1b)) as [->|Hesc].
    { destruct (decide ((raw_read rest0).1 ∈ [end_char; esc_char]))
        as [Hin|Hnin];
        [|by rewrite (read_contents_body_invalid content w rest0 Hrx Hnin)].
      apply control_char_inv in Hin.
      destruct rest0 as [|[c|] rest1]; simpl in Hin;
        [by destruct Hin | | by destruct Hin].
      assert (c = x04 ∨ c = x1b) as Hc
        by (destruct Hin as [H|H]; inversion H; auto).
      rewrite (read_contents_body_escaped content w c rest1 Hrx Hc).
      intros Hloop.
      apply IH in Hloop as (items & k & rest & Hrest & -> & Hcount & Hrx').
      simpl in Hrest. exists ((0%nat, c) :: items), k, rest.
      rewrite wire_with_timeouts_cons, escape_byte_control by tauto.
      simpl. rewrite Hrest. rewrite <- app_assoc in *. done. }
    rewrite (read_contents_body_plain content w b rest0 Hrx Hend Hesc).
    intros Hloop.
    apply IH in Hloop as (items & k & rest & Hrest & -> & Hcount & Hrx').
    simpl in Hrest. exists ((0%nat, b) :: items), k, rest.
    rewrite wire_with_timeouts_cons, escape_byte_plain by done.
    simpl. rewrite Hrest. rewrite <- app_assoc in *. done.
  - rewrite read_contents_body_timeout by (by rewrite Hrx).
    rewrite Hrx. simpl. intros Hloop.
    apply IH in Hloop as (items & k & rest & Hrest & -> & Hcount & Hrx').
    simpl in Hrest. rewrite Hrest.
    destruct (wire_with_timeouts_delay items k rest)
      as (items' & k' & Heq & Hsnd).
    exists items', k', rest. by rewrite Heq, Hsnd.
Qed.

(** [read_contents] returns only what the device sent. If it returns,
    the device acknowledged the three header chunks, then delivered
    (between reads that timed out) exactly the wire image of the returned
    bytes, then END, then a count line stating the number of wire bytes;
    and the port is left right after that line. *)
Theorem read_contents_sound (fuel : nat) (start_address length : Z)
    (w w' : world) (result : bytes) :
  read_contents fuel start_address length w = Returned result w' →
  ∃ items k rest,
    rx (port w) = replicate 3 (Some x06) ++ wire_with_timeouts items
                  ++ replicate k None ++ Some x04 :: rest
    ∧ result = map snd items
    ∧ int_of_bytes (raw_readline rest).1
      = Some (len (escape_file_contents result))
    ∧ rx (port w') = (raw_readline rest).2.
Proof.
  unfold read_contents. unfold mbind at 1, M_bind at 1.
  destruct (acknowledged_write_cases (encode_ascii "r ") w)
    as [(rest1 & Hrx1 & ->)|(e & w1 & -> & _)]; [|done].
  unfold mbind at 1, M_bind at 1.
  match goal with |- context [acknowledged_write ?d ?w0] =>
    destruct (acknowledged_write_cases d w0)
      as [(rest2 & Hrx2 & ->)|(e & w1 & -> & _)]
  end; [|done].
  unfold mbind at 1, M_bind at 1.
  match goal with |- context [acknowledged_write ?d ?w0] =>
    destruct (acknowledged_write_cases d w0)
      as [(rest3 & Hrx3 & ->)|(e & w1 & -> & _)]
  end; [|done].
  simpl in Hrx2, Hrx3. intros Hloop.
  apply read_contents_loop_sound in Hloop
    as (items & k & rest & Hrest & -> & Hcount & Hrx').
  simpl in Hrest. exists items, k, rest.
  rewrite Hrx1, Hrx2, Hrx3, Hrest. done.
Qed.

Lemma read_contents_sound_witness :
  ∃ items k rest,
    replicate 3 (Some x06)
    ++ [None; Some x1b; Some x04; None; Some x04; Some "2"%byte; Some x0a]
    = replicate 3 (Some x06) ++ wire_with_timeouts items
      ++ replicate k None ++ Some x04 :: rest
    ∧ [x04] = map snd items
    ∧ int_of_bytes (raw_readline rest).1
      = Some (len (escape_file_contents [x04]))
    ∧ [] = (raw_readline rest).2.
Proof.
  apply (read_contents_sound 4 0 1
           (idle_world (replicate 3 (Some x06)
                        ++ [None; Some x1b; Some x04; None; Some x04;
                            Some "2"%byte; Some x0a]))
           (mkWorld (mkSerial []
                       (read_header_events 0 1
                        ++ [EvRead []; EvRead [x1b]; EvRead [x04]; EvRead [];
                            EvRead [x04]; EvReadline ["2"%byte; x0a]]))
                    ∅ [])
           [x04]).
  vm_compute. reflexivity.
Defined.

(** [check_filled] with a fill byte [b] on a region, read back intact,
    that is not [n] copies of [b]: the [AssertionError] of [verify_file]
    is caught, and building the message of the new one raises
    [TypeError], which is what leaves [check_filled]. *)
Theorem check_filled_mismatch_raises_TypeError
    (context_diff : list string → list string → string → string → list string)
    (repr_str : string → string) (b : byte) (n : nat) (start_address : Z)
    (w : world) (eeprom : bytes) (rest : list (option byte)) (extra : nat) :
  rx (port w) = replicate 3 (Some x06)
                ++ map Some (escape_file_contents eeprom)
                ++ Some x04 :: rest →
  int_of_bytes (raw_readline rest).1
  = Some (len (escape_file_contents eeprom)) →
  eeprom ≠ replicate n b →
  ∃ w',
    check_filled context_diff repr_str (List.length eeprom + S extra) [b]
                 (Z.of_nat n) start_address w
    = Raised TypeError w'
    ∧ rx (port w') = (raw_readline rest).2.
Proof.
  intros Hrx Hcount Hne.
  unfold check_filled, new_FillBytes, try_except_AssertionError.
  unfold mbind at 1, M_bind at 1.
  pose proof (read_source_fresh [b] (Z.of_nat n) w) as Hsrc.
  rewrite bytes_mul_single in *.
  erewrite (verify_file_frame context_diff repr_str _ start_address _ _
              (replicate n b) eeprom rest extra Hsrc);
    [|exact Hrx|exact Hcount].
  destruct (decide (replicate n b = eeprom)) as [Heq|_]; [by destruct Hne|].
  unfold mbind at 1, M_bind at 1. unfold repr_file, with_port. simpl.
  rewrite list_lookup_middle by done. simpl.
  eexists. split; [reflexivity|done].
Qed.

Lemma check_filled_mismatch_raises_TypeError_witness :
  ∃ w',
    check_filled (λ _ _ _ _, []) id (List.length [xff; x00] + 1) [xff]
                 (Z.of_nat 2) 0
      (idle_world (replicate 3 (Some x06)
                   ++ map Some (escape_file_contents [xff; x00])
                   ++ Some x04 :: map Some (encode_ascii "2") ++ [Some x0a]))
    = Raised TypeError w'
    ∧ rx (port w')
      = (raw_readline (map Some (encode_ascii "2") ++ [Some x0a])).2.
Proof.
  apply (check_filled_mismatch_raises_TypeError (λ _ _ _ _, []) id xff 2 0
           (idle_world (replicate 3 (Some x06)
                        ++ map Some (escape_file_contents [xff; x00])
                        ++ Some x04 :: map Some (encode_ascii "2")
                        ++ [Some x0a]))
           [xff; x00] (map Some (encode_ascii "2") ++ [Some x0a]) 0%nat);
    [reflexivity|reflexivity|discriminate].
Defined.

(** * Decimal count lines *)

Lemma uint_value_pos (d : uint) :
  ∀ p : positive, uint_value (Z.pos p) d = Z.pos (Pos.of_uint_acc d p).
Proof.
  induction d; intros p; simpl; [done|..];
    rewrite <- IHd; f_equal; lia.
Qed.

Lemma uint_value_of_uint (d : uint) : uint_value 0 d = Z.of_uint d.
Proof.
  induction d; simpl; [done|done|..];
    unfold Z.of_uint; simpl; apply uint_value_pos.
Qed.

Lemma space_not_digit (b : byte) :
  is_space b = true → digit_value b = None ∧ b ≠ x5f.
Proof.
  unfold is_space. intros H. apply bool_decide_eq_true in H.
  apply list_elem_of_In in H. simpl in H.
  destruct H as [<-|[<-|[<-|[<-|[<-|[<-|[]]]]]]]; done.
Qed.

(** [more_digits] reads a run of decimal digits as the number they
    stand for, up to the whitespace behind them. *)
Lemma more_digits_uint (d : uint) :
  ∀ (acc : Z) (ws : bytes),
    match ws with [] => True | b :: _ => is_space b = true end →
    more_digits acc (encode_ascii (NilEmpty.string_of_uint d) ++ ws)
    = (uint_value acc d, ws).
Proof.
  induction d; intros acc ws Hws; [|by apply IHd..].
  simpl. destruct ws as [|b ws]; [done|].
  destruct (space_not_digit b Hws) as [Hd Hu]. simpl. rewrite Hd.
  by destruct (decide (b = x5f)).
Qed.

Lemma skip_spaces_all (ws : bytes) :
  Forall (λ b, is_space b = true) ws → skip_spaces ws = [].
Proof. induction 1 as [|b ws Hb _ IH]; simpl; [done|]. by rewrite Hb. Qed.

Lemma int_of_bytes_uint (d : uint) (ws : bytes) :
  Forall (λ b, is_space b = true) ws →
  int_of_bytes (encode_ascii (NilZero.string_of_uint d) ++ ws)
  = Some (Z.of_uint d)
  ∧ int_of_bytes (x2d :: encode_ascii (NilZero.string_of_uint d) ++ ws)
    = Some (- Z.of_uint d).
Proof.
  intros Hws.
  assert (match ws with [] => True | b :: _ => is_space b = true end) as Hhd
    by (by destruct Hws).
  rewrite <- uint_value_of_uint.
  destruct d; unfold int_of_bytes; simpl.
  1: { assert (∀ acc, more_digits acc ws = (acc, ws)) as ->
         by (intros acc; exact (more_digits_uint Nil acc ws Hhd)).
       by rewrite (skip_spaces_all ws Hws). }
  all: rewrite (more_digits_uint d _ ws Hhd), (skip_spaces_all ws Hws);
    (split; [f_equal; rewrite Z.mul_1_l
            | f_equal; rewrite Z.mul_comm, <- Z.opp_eq_mul_m1]; reflexivity).
Qed.

(** [int] undoes [str]: the decimal text of any integer, followed by
    whitespace (the end of the line), parses to that integer. *)
Lemma int_of_bytes_str_int (n : Z) (ws : bytes) :
  Forall (λ b, is_space b = true) ws →
  int_of_bytes (encode_ascii (str_int n) ++ ws) = Some n.
Proof.
  intros Hws. rewrite <- (DecimalZ.of_to n) at 2.
  unfold str_int. destruct (Z.to_int n) as [d|d]; simpl.
  - apply (int_of_bytes_uint d ws Hws).
  - apply (int_of_bytes_uint d ws Hws).
Qed.

Lemma digits_no_newline (d : uint) :
  Forall (λ b, b ≠ newline) (encode_ascii (NilEmpty.string_of_uint d)).
Proof. induction d; simpl; constructor; done. Qed.

Lemma str_int_no_newline (n : Z) :
  Forall (λ b, b ≠ newline) (encode_ascii (str_int n)).
Proof.
  unfold str_int.
  destruct (Z.to_int n) as [d|d]; simpl; [|constructor; [done|]];
    (destruct d; [by repeat constructor|apply (digits_no_newline (_ _))..]).
Qed.

(** A count line as the device sends it: the decimal text of [reported],
    whitespace other than a newline (a carriage return, say), and the
    newline. [readline] takes exactly that line and [int] gives
    [reported]. *)
Lemma count_line_read (reported : Z) (ws : bytes) (rest : list (option byte)) :
  Forall (λ b, is_space b = true ∧ b ≠ newline) ws →
  raw_readline (map Some (encode_ascii (str_int reported) ++ ws)
                ++ Some newline :: rest)
  = (encode_ascii (str_int reported) ++ ws ++ [newline], rest)
  ∧ int_of_bytes (encode_ascii (str_int reported) ++ ws ++ [newline])
    = Some reported.
Proof.
  intros Hws. split.
  - rewrite raw_readline_line; [by rewrite <- app_assoc|].
    intros Hin. apply elem_of_app in Hin as [Hin|Hin].
    + pose proof (str_int_no_newline reported) as Hd.
      rewrite Forall_forall in Hd. by apply (Hd newline).
    + rewrite Forall_forall in Hws. by destruct (Hws newline Hin).
  - apply int_of_bytes_str_int. apply Forall_app. split.
    + eapply Forall_impl; [exact Hws|]. by intros b [Hb _].
    + by repeat constructor.
Qed.

(** C4: in a read, once END has arrived the count line is compared with
    the length of the escaped form of the accumulated bytes, not with
    their raw length: if the two differ an [AssertionError] "read n bytes,
    expected m" is raised, otherwise the raw accumulated bytes are
    returned. This holds for whatever number the line parses to, and a
    line that holds the decimal text of a number parses to that number:
    when the device reports [reported] in decimal, [read_contents]
    returns the raw bytes if [reported] is the number of wire bytes and
    raises the mismatch otherwise. *)
Theorem read_contents_count_check (raw : bytes) (start_address length : Z)
    (w : world) (rest : list (option byte)) (extra : nat) :
  rx (port w) = replicate 3 (Some x06)
                ++ map Some (escape_file_contents raw) ++ Some x04 :: rest →
  (let line := (raw_readline rest).1 in
   let w' := with_port w (raw_readline rest).2
               (read_frame_events start_address length raw line) in
   ∀ bytes_read : Z,
     int_of_bytes line = Some bytes_read →
     (bytes_read ≠ len (escape_file_contents raw) →
      read_contents (List.length raw + S extra) start_address length w
      = Raised (ReadCountMismatch (len (escape_file_contents raw)) bytes_read)
               w') ∧
     (bytes_read = len (escape_file_contents raw) →
      read_contents (List.length raw + S extra) start_address length w
      = Returned raw w')) ∧
  (∀ (reported : Z) (ws : bytes) (rest' : list (option byte)),
      Forall (λ b, is_space b = true ∧ b ≠ newline) ws →
      rest = map Some (encode_ascii (str_int reported) ++ ws)
             ++ Some newline :: rest' →
      let line := encode_ascii (str_int reported) ++ ws ++ [newline] in
      let w' := with_port w rest'
                  (read_frame_events start_address length raw line) in
      (reported ≠ len (escape_file_contents raw) →
       read_contents (List.length raw + S extra) start_address length w
       = Raised (ReadCountMismatch (len (escape_file_contents raw)) reported)
                w') ∧
      (reported = len (escape_file_contents raw) →
       read_contents (List.length raw + S extra) start_address length w
       = Returned raw w')).
Proof.
  intros Hrx.
  rewrite (read_contents_frame raw _ _ w rest extra Hrx). cbv zeta.
  split.
  - intros bytes_read Hline. rewrite Hline.
    destruct (decide (bytes_read = len (escape_file_contents raw)));
      split; done.
  - intros reported ws rest' Hws ->.
    destruct (count_line_read reported ws rest' Hws) as [-> Hint].
    cbn [fst snd]. rewrite Hint.
    destruct (decide (reported = len (escape_file_contents raw)));
      split; done.
Qed.

Lemma read_contents_count_check_witness :
  read_contents (List.length (replicate 11 "A"%byte ++ [x04]) + 1) 0 12
    (idle_world (replicate 3 (Some x06)
                 ++ map Some (escape_file_contents
                                (replicate 11 "A"%byte ++ [x04]))
                 ++ Some x04
                 :: map Some (encode_ascii (str_int 13) ++ [x0d])
                 ++ Some newline :: []))
  = Returned (replicate 11 "A"%byte ++ [x04])
      (with_port
         (idle_world (replicate 3 (Some x06)
                      ++ map Some (escape_file_contents
                                     (replicate 11 "A"%byte ++ [x04]))
                      ++ Some x04
                      :: map Some (encode_ascii (str_int 13) ++ [x0d])
                      ++ Some newline :: []))
         []
         (read_frame_events 0 12 (replicate 11 "A"%byte ++ [x04])
            (encode_ascii (str_int 13) ++ [x0d] ++ [newline])))
  ∧ read_contents (List.length (replicate 11 "A"%byte ++ [x04]) + 1) 0 12
      (idle_world (replicate 3 (Some x06)
                   ++ map Some (escape_file_contents
                                  (replicate 11 "A"%byte ++ [x04]))
                   ++ Some x04
                   :: map Some (encode_ascii (str_int 12) ++ [x0d])
                   ++ Some newline :: []))
    = Raised (ReadCountMismatch
                (len (escape_file_contents (replicate 11 "A"%byte ++ [x04])))
                12)
        (with_port
           (idle_world (replicate 3 (Some x06)
                        ++ map Some (escape_file_contents
                                       (replicate 11 "A"%byte ++ [x04]))
                        ++ Some x04
                        :: map Some (encode_ascii (str_int 12) ++ [x0d])
                        ++ Some newline :: []))
           []
           (read_frame_events 0 12 (replicate 11 "A"%byte ++ [x04])
              (encode_ascii (str_int 12) ++ [x0d] ++ [newline]))).
Proof.
  assert (Forall (λ b, is_space b = true ∧ b ≠ newline) [x0d]) as Hws
    by (by repeat constructor).
  split.
  - destruct (read_contents_count_check (replicate 11 "A"%byte ++ [x04]) 0 12
                (idle_world (replicate 3 (Some x06)
                             ++ map Some (escape_file_contents
                                            (replicate 11 "A"%byte ++ [x04]))
                             ++ Some x04
                             :: map Some (encode_ascii (str_int 13) ++ [x0d])
                             ++ Some newline :: []))
                _ 0%nat eq_refl) as [_ Hdecimal].
    destruct (Hdecimal 13 [x0d] [] Hws eq_refl) as [_ Hequal].
    apply Hequal. reflexivity.
  - destruct (read_contents_count_check (replicate 11 "A"%byte ++ [x04]) 0 12
                (idle_world (replicate 3 (Some x06)
                             ++ map Some (escape_file_contents
                                            (replicate 11 "A"%byte ++ [x04]))
                             ++ Some x04
                             :: map Some (encode_ascii (str_int 12) ++ [x0d])
                             ++ Some newline :: []))
                _ 0%nat eq_refl) as [_ Hdecimal].
    destruct (Hdecimal 12 [x0d] [] Hws eq_refl) as [Hdiffer _].
    apply Hdiffer. discriminate.
Defined.

(** C5: after END the write reads one line and parses it as the number
    of raw bytes the device received; an [AssertionError] "written n
    bytes, expected m" is raised exactly when that number differs from
    the length of the unescaped content of the source, and the write
    returns when it is equal. This holds for whatever number the line
    parses to, and a line that holds the decimal text of a number parses
    to that number: when the device reports [reported] in decimal,
    [write_file] returns if [reported] is the length of the raw content
    and raises the mismatch otherwise. *)
Theorem write_file_count_check (file : file_arg) (start_address : Z)
    (w w1 : world) (raw : bytes) (desc : string) (rest : list (option byte)) :
  read_source file w = Returned raw w1 →
  format_file file w1 = Returned desc w1 →
  rx (port w) = replicate 2 (Some x06)
                ++ replicate (List.length (escape_file_contents raw)) (Some x06)
                ++ Some x06 :: rest →
  (let line := (raw_readline rest).1 in
   let w' := with_port w1 (raw_readline rest).2
               (write_frame_events start_address raw line) in
   ∀ bytes_written : Z,
     int_of_bytes line = Some bytes_written →
     (bytes_written ≠ len raw ↔
      write_file file start_address w
      = Raised (WriteCountMismatch bytes_written (len raw)) w') ∧
     (bytes_written = len raw ↔
      write_file file start_address w = Returned tt w')) ∧
  (∀ (reported : Z) (ws : bytes) (rest' : list (option byte)),
      Forall (λ b, is_space b = true ∧ b ≠ newline) ws →
      rest = map Some (encode_ascii (str_int reported) ++ ws)
             ++ Some newline :: rest' →
      let line := encode_ascii (str_int reported) ++ ws ++ [newline] in
      let w' := with_port w1 rest'
                  (write_frame_events start_address raw line) in
      (reported ≠ len raw ↔
       write_file file start_address w
       = Raised (WriteCountMismatch reported (len raw)) w') ∧
      (reported = len raw ↔
       write_file file start_address w = Returned tt w')).
Proof.
  intros Hsrc Hdesc Hrx.
  rewrite (write_file_frame file start_address w w1 raw desc rest Hsrc Hdesc Hrx).
  cbv zeta. split.
  - intros bytes_written Hline. rewrite Hline.
    destruct (decide (bytes_written = len raw)) as [Heq|Hne]; split; split;
      try done.
  - intros reported ws rest' Hws ->.
    destruct (count_line_read reported ws rest' Hws) as [-> Hint].
    cbn [fst snd]. rewrite Hint.
    destruct (decide (reported = len raw)) as [Heq|Hne]; split; split;
      try done.
Qed.

Lemma write_file_count_check_witness :
  write_file (Path "rom.bin") 16
    (mkWorld (mkSerial (replicate 2 (Some x06)
                        ++ replicate
                             (List.length
                                (escape_file_contents
                                   (replicate 11 "A"%byte ++ [x04])))
                             (Some x06)
                        ++ Some x06
                        :: map Some (encode_ascii (str_int 12) ++ [x0d])
                        ++ Some newline :: []) [])
             {["rom.bin" := replicate 11 "A"%byte ++ [x04]]} [])
  = Returned tt
      (with_port
         (mkWorld (mkSerial (replicate 2 (Some x06)
                             ++ replicate
                                  (List.length
                                     (escape_file_contents
                                        (replicate 11 "A"%byte ++ [x04])))
                                  (Some x06)
                             ++ Some x06
                             :: map Some (encode_ascii (str_int 12) ++ [x0d])
                             ++ Some newline :: []) [])
                  {["rom.bin" := replicate 11 "A"%byte ++ [x04]]} [])
         []
         (write_frame_events 16 (replicate 11 "A"%byte ++ [x04])
            (encode_ascii (str_int 12) ++ [x0d] ++ [newline]))).
Proof.
  assert (Forall (λ b, is_space b = true ∧ b ≠ newline) [x0d]) as Hws
    by (by repeat constructor).
  set (w0 := mkWorld (mkSerial (replicate 2 (Some x06)
                                ++ replicate
                                     (List.length
                                        (escape_file_contents
                                           (replicate 11 "A"%byte ++ [x04])))
                                     (Some x06)
                                ++ Some x06
                                :: map Some (encode_ascii (str_int 12) ++ [x0d])
                                ++ Some newline :: []) [])
                     {["rom.bin" := replicate 11 "A"%byte ++ [x04]]} []).
  assert (read_source (Path "rom.bin") w0
          = Returned (replicate 11 "A"%byte ++ [x04]) w0) as Hsrc
    by (vm_compute; reflexivity).
  assert (format_file (Path "rom.bin") w0 = Returned "rom.bin"%string w0)
    as Hdesc by reflexivity.
  destruct (write_file_count_check (Path "rom.bin") 16 w0 w0
              (replicate 11 "A"%byte ++ [x04]) "rom.bin"
              (map Some (encode_ascii (str_int 12) ++ [x0d])
               ++ Some newline :: [])
              Hsrc Hdesc eq_refl) as [_ Hdecimal].
  destruct (Hdecimal 12 [x0d] [] Hws eq_refl) as [_ Hequal].
  apply Hequal. vm_compute. reflexivity.
Defined.

(** Counts of more than one digit, as bytes: "12" and a carriage return
    before the newline parse to 12, and "13" does not parse to 12. *)
Example int_of_bytes_two_digits :
  int_of_bytes ["1"%byte; "2"%byte; x0d; x0a] = Some 12
  ∧ int_of_bytes ["1"%byte; "3"%byte; x0a] = Some 13
  ∧ int_of_bytes ["4"%byte; "0"%byte; "9"%byte; "6"%byte; x0a] = Some 4096.
Proof. repeat split. Qed.

(** * Timeouts and the end of the data *)

(** C10, as the code has it: a read at the top of the loop that times out
    adds nothing and the loop goes on, while a read directly after ESCAPE
    that times out raises "Invalid escape sequence received"; on a device
    that falls silent after complete escaped data the loop runs for ever;
    and the loop returns only if an unescaped END byte is delivered: what
    the device sent up to that END is, between reads that timed out, the
    whole escaped form of the bytes accumulated, so that END does not
    complete an ESCAPE pair. *)
Theorem read_loop_timeouts (content : bytes) (w : world) :
  ((raw_read (rx (port w))).1 = [] →
   read_contents_body content w
   = Returned (inl content)
       (with_port w (raw_read (rx (port w))).2 [EvRead []])) ∧
  (∀ rest, rx (port w) = Some x1b :: rest → (raw_read rest).1 = [] →
     read_contents_body content w
     = Raised InvalidEscape
         (with_port w (raw_read rest).2 [EvRead [x1b]; EvRead []])) ∧
  (∀ fuel raw k,
     rx (port w) = map Some (escape_file_contents raw) ++ replicate k None →
     ∃ w', read_contents_loop fuel content w = OutOfFuel w') ∧
  (∀ fuel result w',
     read_contents_loop fuel content w = Returned result w' →
     ∃ items k rest,
       rx (port w) = wire_with_timeouts items ++ replicate k None
                     ++ Some x04 :: rest
       ∧ result = content ++ map snd items).
Proof.
  split; [|split; [|split]].
  - apply read_contents_body_timeout.
  - intros rest Hrx Hread.
    rewrite (read_contents_body_invalid content w rest Hrx).
    + by rewrite Hread.
    + rewrite Hread, control_char_inv. by intros [H|H].
  - intros fuel raw k. apply read_contents_loop_escaped_then_silent.
  - intros fuel result w' Hrun.
    apply read_contents_loop_sound in Hrun
      as (items & k & rest & Hrx & Hres & _).
    by exists items, k, rest.
Qed.

Lemma read_loop_timeouts_witness :
  read_contents_body ["A"%byte] (idle_world [None; Some x04])
  = Returned (inl ["A"%byte])
      (with_port (idle_world [None; Some x04]) [Some x04] [EvRead []])
  ∧ read_contents_body ["A"%byte] (idle_world [Some x1b; None])
    = Raised InvalidEscape
        (with_port (idle_world [Some x1b; None]) [] [EvRead [x1b]; EvRead []])
  ∧ (∃ w', read_contents_loop 7 ["A"%byte]
             (idle_world (map Some (escape_file_contents [x04])
                          ++ replicate 2 None))
           = OutOfFuel w')
  ∧ (∃ items k rest,
       [Some x1b; Some x04; None; Some x04; Some "3"%byte; Some x0a]
       = wire_with_timeouts items ++ replicate k None ++ Some x04 :: rest
       ∧ ["A"%byte; x04] = ["A"%byte] ++ map snd items).
Proof.
  split; [|split; [|split]].
  - destruct (read_loop_timeouts ["A"%byte] (idle_world [None; Some x04]))
      as (Htop & _).
    apply Htop. reflexivity.
  - destruct (read_loop_timeouts ["A"%byte] (idle_world [Some x1b; None]))
      as (_ & Hesc & _).
    apply (Hesc [None]); reflexivity.
  - destruct (read_loop_timeouts ["A"%byte]
                (idle_world (map Some (escape_file_contents [x04])
                             ++ replicate 2 None)))
      as (_ & _ & Hsilent & _).
    apply (Hsilent 7%nat [x04] 2%nat). reflexivity.
  - destruct (read_loop_timeouts ["A"%byte]
                (idle_world [Some x1b; Some x04; None; Some x04;
                             Some "3"%byte; Some x0a]))
      as (_ & _ & _ & Hend).
    apply (Hend 3%nat ["A"%byte; x04]
                (mkWorld
                   (mkSerial []
                      [EvRead [x1b]; EvRead [x04]; EvRead []; EvRead [x04];
                       EvReadline ["3"%byte; x0a]]) ∅ [])).
    vm_compute. reflexivity.
Defined.
